(** * A shallow embedding of the proxy server

    The class [ProxyServer] of [proxyServer.ts], in the variant that builds
    the outbound request by hand with [http.request] / [https.request]
    (the one with redirect passthrough and the 30 second time-out).

    The class is a small piece of stateful code:
    five mutable fields, three lifecycle methods ([start], [stop],
    [isRunning]), a token rotation routine ([rotateToken]) and a request
    handler closure.  Every method is modelled as a function from the
    object's fields (and the part of the outside world it consults) to the
    new fields, the user-visible notifications and the returned value.

    JavaScript strings are sequences of UTF-16 code units; they are modelled
    as lists of code units, so that [trim] and the regular expression class
    [\s] can be given their full ECMAScript meaning. *)

From Stdlib Require Import NArith ZArith List String Ascii Bool Lia.
Import ListNotations.

Set Implicit Arguments.

(* ================================================================== *)
(** ** JavaScript strings *)
(* ================================================================== *)

Module JsString.

Definition jsstring := list N.

(** A literal: every character of a Rocq string is one code unit. *)
Definition js (s : string) : jsstring :=
  map N_of_ascii (list_ascii_of_string s).

Fixpoint eqb (a b : jsstring) : bool :=
  match a, b with
  | [], [] => true
  | x :: a', y :: b' => N.eqb x y && eqb a' b'
  | _, _ => false
  end.

(** [s === ''] *)
Definition is_empty (s : jsstring) : bool :=
  match s with [] => true | _ => false end.

(** Truthiness of a string value: every string but [''] is truthy. *)
Definition truthy (s : jsstring) : bool := negb (is_empty s).

(** ECMAScript WhiteSpace and LineTerminator code points.  This one set is
    what [String.prototype.trim] strips and what the class [\s] matches;
    [\r] and [\n] belong to it, so the class [[\r\n\s]] is the same set. *)
Definition is_space (c : N) : bool :=
  ((0x09 <=? c) && (c <=? 0x0D)      (* TAB LF VT FF CR *)
   || (c =? 0x20) || (c =? 0xA0)     (* SP NBSP *)
   || (c =? 0x1680)
   || ((0x2000 <=? c) && (c <=? 0x200A))
   || (c =? 0x2028) || (c =? 0x2029) (* LS PS *)
   || (c =? 0x202F) || (c =? 0x205F) || (c =? 0x3000)
   || (c =? 0xFEFF))%N.

Fixpoint trimStart (s : jsstring) : jsstring :=
  match s with
  | c :: s' => if is_space c then trimStart s' else s
  | [] => []
  end.

Definition trimEnd (s : jsstring) : jsstring := rev (trimStart (rev s)).

(** [s.trim()] *)
Definition trim (s : jsstring) : jsstring := trimEnd (trimStart s).

(** [s.replace(/[\r\n\s]+/g, '')]: every maximal run of class characters
    is replaced by the empty string, which leaves exactly the characters
    outside the class, in order. *)
Definition remove_spaces (s : jsstring) : jsstring :=
  filter (fun c => negb (is_space c)) s.

(** ASCII lower-casing, as [toLowerCase] acts on header names (which are
    HTTP tokens, hence ASCII). *)
Definition lower_unit (c : N) : N :=
  if ((0x41 <=? c) && (c <=? 0x5A))%N then (c + 0x20)%N else c.

Definition toLowerCase (s : jsstring) : jsstring := map lower_unit s.

End JsString.

Import JsString.

(* ================================================================== *)
(** ** JavaScript objects used as string-keyed maps *)
(* ================================================================== *)

(** An object literal such as [{ ...req.headers }] is an insertion-ordered
    map with case-sensitive string keys.  Assigning to an existing key keeps
    its position; assigning to a new key appends it; [delete] removes it.
    (JavaScript enumerates keys that look like array indices ahead of the
    others; header names of that shape get no special treatment here, and
    nothing below depends on the order of two names unless they differ in
    case only.) *)
Module JsObject.

Section Obj.
Variable V : Type.

Definition t := list (jsstring * V).

Fixpoint get (k : jsstring) (o : t) : option V :=
  match o with
  | [] => None
  | (k', v) :: o' => if JsString.eqb k k' then Some v else get k o'
  end.

Fixpoint set (k : jsstring) (v : V) (o : t) : t :=
  match o with
  | [] => [(k, v)]
  | (k', v') :: o' =>
      if JsString.eqb k k' then (k', v) :: o' else (k', v') :: set k v o'
  end.

Fixpoint delete (k : jsstring) (o : t) : t :=
  match o with
  | [] => []
  | (k', v') :: o' =>
      if JsString.eqb k k' then delete k o' else (k', v') :: delete k o'
  end.

Definition keys (o : t) : list jsstring := map fst o.


End Obj.

End JsObject.

(* ================================================================== *)
(** ** The parts of the platform the class talks to *)
(* ================================================================== *)

(** A header value: [string | string[]] (Node's [IncomingHttpHeaders]). *)
Inductive HeaderValue :=
| HeaderString (s : jsstring)
| HeaderArray (l : list jsstring).

Definition Headers := JsObject.t HeaderValue.

(** Truthiness of a header value: arrays are objects, hence truthy. *)
Definition header_truthy (v : HeaderValue) : bool :=
  match v with
  | HeaderString s => JsString.truthy s
  | HeaderArray _ => true
  end.

(** Node stores the names of a received message's headers lower-cased. *)
Definition lowercase_names (h : Headers) : Prop :=
  forall k, In k (JsObject.keys h) -> toLowerCase k = k.

(** The fields of a parsed [URL] object the handler (and the statements
    below) look at. *)
Module URL.
Record t := {
    protocol : jsstring;   (* 'http:' or 'https:' *)
    hostname : jsstring;
    port : jsstring;       (* '' when absent or the scheme's default *)
    pathname : jsstring;
    search : jsstring      (* '' or '?...' *)
  }.
End URL.

(** [execSync(command, { encoding: 'utf-8', timeout })] either returns the
    command's standard output or throws (non-zero exit status, time-out,
    spawn failure). *)
Inductive ExecResult :=
| ExecOutput (stdout : jsstring)
| ExecThrows (message : jsstring).

(** [server.listen(port, callback)]: the callback runs once the socket is
    bound; a port outside 0..65535 makes [listen] throw synchronously;
    a bind failure (address in use, permission) is reported later through
    an ['error'] event, for which the class registers no handler. *)
Inductive ListenOutcome :=
| ListenCallback
| ListenThrows
| ListenErrorEvent.

(** The workspace configuration section [proxyExtension]:
    [config.get<T>(key)] is [T | undefined].  The two numeric settings are
    taken to be integers. *)
Record Config := {
  destination : option jsstring;
  tokenCommand : option jsstring;
  proxyPort : option Z;
  tokenRotationMinutes : option Z
}.

(** What a method call finds outside the object at the moment it runs: the
    live configuration, the behaviour of the credential command, of the
    socket layer and of the URL parser. *)
Record World := {
  getConfiguration : Config;
  execSync : jsstring -> ExecResult;
  listen : Z -> ListenOutcome;
  newURL : jsstring -> option URL.t   (* [None]: the constructor throws *)
}.

(** [x || d] on an optional string / number. *)
Definition or_string (x : option jsstring) (d : jsstring) : jsstring :=
  match x with
  | Some s => if JsString.truthy s then s else d
  | None => d
  end.

Definition or_number (x : option Z) (d : Z) : Z :=
  match x with
  | Some n => if Z.eqb n 0 then d else n
  | None => d
  end.

(** [!x] on an optional string. *)
Definition not_string (x : option jsstring) : bool :=
  match x with
  | Some s => JsString.is_empty s
  | None => true
  end.

(* ================================================================== *)
(** ** The class [ProxyServer] *)
(* ================================================================== *)

(** The [http.Server] object made by [http.createServer(handler)].  The
    handler closure captures the local [destination] of the [start] call
    that created it; [listening] is the port the server is bound to, if the
    [listen] callback has run. *)
Record HttpServer := {
  captured_destination : jsstring;
  listening : option Z
}.

(** The [http-proxy] handle kept in the field [proxy]. *)
Inductive HttpProxy := HttpProxyHandle.

(** The five private fields. *)
Record ProxyServer := {
  server : option HttpServer;
  proxy : option HttpProxy;
  token : jsstring;
  tokenRotationInterval : option Z;   (* the timer, by its period in ms *)
  shouldUseAuthentication : bool
}.

(** [new ProxyServer()] *)
Definition new_ProxyServer : ProxyServer :=
  {| server := None; proxy := None; token := [];
     tokenRotationInterval := None; shouldUseAuthentication := false |}.

Definition with_server (v : option HttpServer) (this : ProxyServer) :=
  {| server := v; proxy := proxy this; token := token this;
     tokenRotationInterval := tokenRotationInterval this;
     shouldUseAuthentication := shouldUseAuthentication this |}.

Definition with_proxy (v : option HttpProxy) (this : ProxyServer) :=
  {| server := server this; proxy := v; token := token this;
     tokenRotationInterval := tokenRotationInterval this;
     shouldUseAuthentication := shouldUseAuthentication this |}.

Definition with_token (v : jsstring) (this : ProxyServer) :=
  {| server := server this; proxy := proxy this; token := v;
     tokenRotationInterval := tokenRotationInterval this;
     shouldUseAuthentication := shouldUseAuthentication this |}.

Definition with_tokenRotationInterval (v : option Z) (this : ProxyServer) :=
  {| server := server this; proxy := proxy this; token := token this;
     tokenRotationInterval := v;
     shouldUseAuthentication := shouldUseAuthentication this |}.

Definition with_shouldUseAuthentication (v : bool) (this : ProxyServer) :=
  {| server := server this; proxy := proxy this; token := token this;
     tokenRotationInterval := tokenRotationInterval this;
     shouldUseAuthentication := v |}.

(** What the class shows to the user ([vscode.window.show...Message]) and
    the one external command it runs.  [console.log] output is left out. *)
Inductive Message :=
| MsgAlreadyRunning              (* 'Proxy server is already running' *)
| MsgDestinationNotSet           (* 'Destination URL is not set' *)
| MsgAuthenticationDisabled      (* 'Token command is empty. Authentication is disabled.' *)
| MsgStarted (port : Z) (dest : jsstring) (authEnabled : bool)
| MsgNotRunning                  (* 'Proxy server is not running' *)
| MsgStopped                     (* 'Proxy server stopped' *)
| MsgTokenRotated                (* 'Token rotated successfully' *)
| MsgTokenCommandFailed (message : jsstring).

Inductive Effect :=
| ShowInformationMessage (m : Message)
| ShowWarningMessage (m : Message)
| ShowErrorMessage (m : Message)
| ExecSyncCall (command : jsstring) (timeout_ms : Z).

(** [isRunning()]: [this.server !== null]. *)
Definition isRunning (this : ProxyServer) : bool :=
  match server this with
  | Some _ => true
  | None => false
  end.

(** [rotateToken()].  The configuration is read anew on every call. *)
Definition rotateToken (w : World) (this : ProxyServer)
  : ProxyServer * list Effect :=
  if negb (shouldUseAuthentication this) then (this, [])
  else
    let disabled :=
      (with_token [] (with_shouldUseAuthentication false this),
       [ShowWarningMessage MsgAuthenticationDisabled]) in
    match tokenCommand (getConfiguration w) with
    | None => disabled
    | Some tokenCommand =>
        (* !tokenCommand || tokenCommand.trim() === '' *)
        if JsString.is_empty tokenCommand
           || JsString.is_empty (trim tokenCommand)
        then disabled
        else
          match execSync w tokenCommand with
          | ExecOutput stdout =>
              let result := trim stdout in
              (with_token (remove_spaces result) this,
               [ExecSyncCall tokenCommand 60000;
                ShowInformationMessage MsgTokenRotated])
          | ExecThrows message =>
              (* Keep the old token if the command fails *)
              (this,
               [ExecSyncCall tokenCommand 60000;
                ShowErrorMessage (MsgTokenCommandFailed message)])
          end
    end.

(** How the promise returned by [start()] settles. *)
Inductive StartResult :=
| Resolved (b : bool)
| Rejected      (* [listen] threw inside the promise executor *)
| Pending.      (* the [listen] callback never runs: [resolve] is not called *)

(** [start()].  The rotation inside runs to completion before anything else
    can happen (it contains no suspension point), so the whole call sees one
    [World]. *)
Definition start (w : World) (this : ProxyServer)
  : ProxyServer * list Effect * StartResult :=
  match server this with
  | Some _ => (this, [ShowInformationMessage MsgAlreadyRunning], Resolved false)
  | None =>
      let config := getConfiguration w in
      let destination := destination config in
      let tokenCommand := or_string (tokenCommand config) [] in
      let proxyPort := or_number (proxyPort config) 123456 in
      let tokenRotationMinutes := or_number (tokenRotationMinutes config) 60 in
      let this1 :=
        with_shouldUseAuthentication
          (negb (JsString.is_empty (trim tokenCommand))) this in
      if not_string destination then
        (this1, [ShowErrorMessage MsgDestinationNotSet], Resolved false)
      else
        let destination := or_string destination [] in
        let '(this2, eff) :=
          if shouldUseAuthentication this1 then rotateToken w this1
          else (this1, [ShowInformationMessage MsgAuthenticationDisabled]) in
        let this3 :=
          with_server
            (Some {| captured_destination := destination;
                     listening := None |}) this2 in
        match listen w proxyPort with
        | ListenCallback =>
            let this4 :=
              with_server
                (Some {| captured_destination := destination;
                         listening := Some proxyPort |}) this3 in
            let this5 :=
              if shouldUseAuthentication this4 then
                with_tokenRotationInterval
                  (Some (tokenRotationMinutes * 60 * 1000)%Z) this4
              else this4 in
            (this5,
             eff ++ [ShowInformationMessage
                       (MsgStarted proxyPort destination
                          (shouldUseAuthentication this4))],
             Resolved true)
        | ListenThrows => (this3, eff, Rejected)
        | ListenErrorEvent => (this3, eff, Pending)
        end
  end.

(** [stop()].  None of [clearInterval], [server.close()] (called without a
    callback) throws, and [this.proxy] is never assigned by this variant of
    the class, so the [catch] branch is not reachable. *)
Definition stop (this : ProxyServer) : ProxyServer * list Effect * bool :=
  match server this with
  | None => (this, [ShowInformationMessage MsgNotRunning], false)
  | Some _ =>
      let this1 :=
        match tokenRotationInterval this with
        | Some _ => with_tokenRotationInterval None this
        | None => this
        end in
      let this2 := with_server None this1 in
      let this3 := with_proxy None this2 in
      let this4 := with_shouldUseAuthentication false this3 in
      (this4, [ShowInformationMessage MsgStopped], true)
  end.

(** The timer callback [() => this.rotateToken()] fires only while the
    interval is installed. *)
Definition timer_tick (w : World) (this : ProxyServer)
  : ProxyServer * list Effect :=
  match tokenRotationInterval this with
  | Some _ => rotateToken w this
  | None => (this, [])
  end.

(* ================================================================== *)
(** ** The request handler *)
(* ================================================================== *)

(** The inbound request ([http.IncomingMessage]). *)
Module Req.
Record t := {
  url : jsstring;        (* path and query string, e.g. '/foo?x=1' *)
  method : jsstring;
  headers : Headers
}.
End Req.

(** [url.port || (isHttps ? 443 : 80)] is a string or a number. *)
Inductive PortValue :=
| PortString (s : jsstring)
| PortNumber (n : Z).

(** The [options] object handed to [http.request] / [https.request]. *)
Module Options.
Record t := {
  hostname : jsstring;
  port : PortValue;
  path : jsstring;
  method : jsstring;
  headers : Headers;
  timeout : Z;
  keepAlive : bool;
  keepAliveMsecs : Z;
  maxSockets : Z;
  rejectUnauthorized : bool
}.
End Options.

Inductive BodyHandling :=
| PipeRequestBody      (* req.pipe(proxyReq) *)
| EndRequest.          (* proxyReq.end() *)

(** What one run of the handler does: it calls [http.request] or
    [https.request] once, with the options it has built, or (when [new URL]
    throws) answers 500 from the [catch].  What the request function then
    makes of the options is Node's business; its treatment of the headers
    is described by [outgoingHeaders] below. *)
Inductive HandlerResult :=
| ProxyRequest (isHttps : bool) (options : Options.t) (body : BodyHandling)
| InternalServerError.

Definition AuthorizationName : jsstring := js "Authorization".

Definition bearer (sanitizedToken : jsstring) : HeaderValue :=
  HeaderString (js "Bearer " ++ sanitizedToken).

(** The body of the closure passed to [http.createServer]; [destination] is
    the captured local of [start], [this] the object at the time of the
    request. *)
Definition requestHandler (w : World) (destination : jsstring)
    (this : ProxyServer) (req : Req.t) : HandlerResult :=
  match newURL w destination with
  | None => InternalServerError
  | Some url =>
      let isHttps := JsString.eqb (URL.protocol url) (js "https:") in
      let headers0 : Headers := Req.headers req in
      let headers1 :=
        if shouldUseAuthentication this
           && JsString.truthy (token this)
           && negb (JsString.is_empty (trim (token this)))
        then
          let sanitizedToken := remove_spaces (trim (token this)) in
          JsObject.set AuthorizationName (bearer sanitizedToken) headers0
        else headers0 in
      let headers2 :=
        JsObject.delete (js "proxy-connection")
          (JsObject.delete (js "connection")
             (JsObject.delete (js "host") headers1)) in
      ProxyRequest isHttps
        {| Options.hostname := URL.hostname url;
           Options.port :=
             if JsString.truthy (URL.port url) then PortString (URL.port url)
             else PortNumber (if isHttps then 443 else 80);
           Options.path := Req.url req;
           Options.method := Req.method req;
           Options.headers := headers2;
           Options.timeout := 30000;
           Options.keepAlive := true;
           Options.keepAliveMsecs := 1000;
           Options.maxSockets := 50;
           Options.rejectUnauthorized := false |}
        (if negb (JsString.eqb (Req.method req) (js "GET"))
            && negb (JsString.eqb (Req.method req) (js "HEAD"))
         then PipeRequestBody else EndRequest)
  end.

(** The handler's test [this.shouldUseAuthentication && this.token &&
    this.token.trim() !== ''], and the header object it goes on to build. *)
Definition attaches_token (this : ProxyServer) : bool :=
  shouldUseAuthentication this
  && JsString.truthy (token this)
  && negb (JsString.is_empty (trim (token this))).

(** A request arriving at the object's server, if it has one. *)
Definition serve (w : World) (this : ProxyServer) (req : Req.t)
  : option HandlerResult :=
  match server this with
  | Some srv => Some (requestHandler w (captured_destination srv) this req)
  | None => None
  end.

(** The upstream response ([proxyRes]). *)
Module Res.
Record t := {
  statusCode : option Z;
  headers : Headers
}.
End Res.

(** What the response callback does to the client response [res]; these
    are its only effects (it issues no request of its own). *)
Inductive ClientAction :=
| WriteHead (status : Z) (headers : Headers)
| End_ (body : option jsstring)
| PipeUpstreamBody.      (* proxyRes.pipe(res) *)

Definition LocationName : jsstring := js "Location".

(** The callback [(proxyRes) => { ... }] given to the outbound request. *)
Definition onResponse (proxyRes : Res.t) : list ClientAction :=
  let passthrough :=
    let responseHeaders :=
      JsObject.delete (js "proxy-connection")
        (JsObject.delete (js "connection") (Res.headers proxyRes)) in
    [WriteHead (or_number (Res.statusCode proxyRes) 500) responseHeaders;
     PipeUpstreamBody] in
  match Res.statusCode proxyRes with
  | Some status =>
      if Z.eqb status 301 || Z.eqb status 302 then
        match JsObject.get (js "location") (Res.headers proxyRes) with
        | Some location =>
            if header_truthy location then
              [WriteHead status [(LocationName, location)]; End_ None]
            else passthrough
        | None => passthrough
        end
      else passthrough
  | None => passthrough
  end.

(** Node's [ClientRequest] constructor walks the keys of [options.headers]
    in order and calls [setHeader(key, value)] for each; [setHeader] files
    the pair under the lower-cased name, a later name replacing an earlier
    one that differs only in case.  The result is what goes on the wire:
    lower-cased name, then the name as written and the value. *)
Definition setHeader (name : jsstring) (value : HeaderValue)
    (out : JsObject.t (jsstring * HeaderValue))
  : JsObject.t (jsstring * HeaderValue) :=
  JsObject.set (toLowerCase name) (name, value) out.

Definition outgoingHeaders (h : Headers)
  : JsObject.t (jsstring * HeaderValue) :=
  fold_left (fun out kv => setHeader (fst kv) (snd kv) out) h [].

(* ================================================================== *)
(** ** A server's life *)
(* ================================================================== *)

(** What can happen to the object between two requests: the host calls
    [start] or [stop], or the rotation timer fires.  Each event comes with
    the world as it is at that moment (the user may have edited the
    settings in between). *)
Inductive Event :=
| CallStart (w : World)
| CallStop
| TimerFires (w : World).

Definition step (e : Event) (this : ProxyServer) : ProxyServer :=
  match e with
  | CallStart w => fst (fst (start w this))
  | CallStop => fst (fst (stop this))
  | TimerFires w => fst (timer_tick w this)
  end.

Definition steps (es : list Event) (this : ProxyServer) : ProxyServer :=
  fold_left (fun s e => step e s) es this.

(** Events of one run: everything but [stop]. *)
Definition during_run (e : Event) : bool :=
  match e with
  | CallStop => false
  | _ => true
  end.

(** The states the object can be in. *)
Inductive reachable : ProxyServer -> Prop :=
| reachable_new : reachable new_ProxyServer
| reachable_step e this : reachable this -> reachable (step e this).

(** The commands a list of effects ran through [execSync]. *)
Definition executed_commands (eff : list Effect) : list jsstring :=
  flat_map (fun e => match e with
                     | ExecSyncCall command _ => [command]
                     | _ => []
                     end) eff.

Definition no_space (s : jsstring) : bool :=
  forallb (fun c => negb (is_space c)) s.

(** The three header names the handler deletes from the outbound copy. *)
Definition delete_hop_headers (h : Headers) : Headers :=
  JsObject.delete (js "proxy-connection")
    (JsObject.delete (js "connection") (JsObject.delete (js "host") h)).

(* ================================================================== *)
(** ** A concrete platform, for running the model *)
(* ================================================================== *)

(** [net.Server.listen] validates the port before binding: a number
    outside 0..65535 throws [ERR_SOCKET_BAD_PORT].  Every port in range is
    taken to be free here. *)
Definition node_listen (port : Z) : ListenOutcome :=
  if (0 <=? port)%Z && (port <? 65536)%Z then ListenCallback
  else ListenThrows.

Fixpoint strip_prefix (p s : jsstring) : option jsstring :=
  match p, s with
  | [], _ => Some s
  | x :: p', y :: s' => if N.eqb x y then strip_prefix p' s' else None
  | _ :: _, [] => None
  end.

(** The longest prefix whose code units satisfy [f], and the rest. *)
Fixpoint span (f : N -> bool) (s : jsstring) : jsstring * jsstring :=
  match s with
  | c :: s' =>
      if f c then let '(a, b) := span f s' in (c :: a, b) else ([], s)
  | [] => ([], [])
  end.

Definition is_digit (c : N) : bool := ((0x30 <=? c) && (c <=? 0x39))%N.

(** [new URL(s)] on plain [http://] and [https://] URLs made of a host, an
    optional decimal port, a path and a query string (no credentials, no
    IPv6 literal, no escapes or dot segments to normalise).  Anything else
    is taken to throw. *)
Definition plain_URL (s : jsstring) : option URL.t :=
  let scheme :=
    match strip_prefix (js "https://") s with
    | Some rest => Some (js "https:", js "443", rest)
    | None =>
        match strip_prefix (js "http://") s with
        | Some rest => Some (js "http:", js "80", rest)
        | None => None
        end
    end in
  match scheme with
  | None => None
  | Some (protocol, default_port, rest) =>
      let '(authority, rest1) :=
        span (fun c => negb ((c =? 0x2F) || (c =? 0x3F) || (c =? 0x23))%N)
             rest in
      let '(host, colon_port) := span (fun c => negb (c =? 0x3A)%N) authority in
      let port := tl colon_port in
      if JsString.is_empty host || negb (forallb is_digit port) then None
      else
        let '(pathname, rest2) :=
          span (fun c => negb ((c =? 0x3F) || (c =? 0x23))%N) rest1 in
        let '(search, _) := span (fun c => negb (c =? 0x23)%N) rest2 in
        Some {| URL.protocol := protocol;
                URL.hostname := toLowerCase host;
                URL.port :=
                  if JsString.eqb port default_port then [] else port;
                URL.pathname :=
                  if JsString.is_empty pathname then js "/" else pathname;
                URL.search :=
                  if JsString.eqb search (js "?") then [] else search |}
  end.

(** The settings as [package.json] declares their defaults. *)
Definition default_config : Config :=
  {| destination := Some (js "http://localhost:3000");
     tokenCommand := Some (js "echo 'default-token'");
     proxyPort := Some 123456%Z;
     tokenRotationMinutes := Some 60%Z |}.

(** A shell that knows a few commands; any other command fails. *)
Definition sample_shell (command : jsstring) : ExecResult :=
  if JsString.eqb command (js "echo 'default-token'") then
    ExecOutput (js "default-token" ++ [0x0A%N])
  else if JsString.eqb command (js "print-token-a") then
    ExecOutput (js "T1" ++ [0x0A%N])
  else if JsString.eqb command (js "print-token-b") then
    ExecOutput (js "T2" ++ [0x0A%N])
  else if JsString.eqb command (js "print-abc123") then
    ExecOutput (js "  abc123" ++ [0x0A%N])
  else ExecThrows (js "Command failed").

Definition sample_world (c : Config) : World :=
  {| getConfiguration := c;
     execSync := sample_shell;
     listen := node_listen;
     newURL := plain_URL |}.

Definition sample_config (dest command : option jsstring) (port : Z) : Config :=
  {| destination := dest;
     tokenCommand := command;
     proxyPort := Some port;
     tokenRotationMinutes := Some 60%Z |}.

Definition get_request (path : jsstring) (h : Headers) : Req.t :=
  {| Req.url := path; Req.method := js "GET"; Req.headers := h |}.

(** Two settings that differ in the token command only. *)
Definition config_a : Config :=
  sample_config (Some (js "http://localhost:3000"))
                (Some (js "print-token-a")) 8080.

Definition config_b : Config :=
  sample_config (Some (js "http://localhost:3000"))
                (Some (js "print-token-b")) 8080.

(** Settings whose token command fails. *)
Definition config_failing : Config :=
  sample_config (Some (js "http://localhost:3000"))
                (Some (js "exit 1")) 8080.


(** Settings whose command prints the specification's example. *)
Definition config_abc123 : Config :=
  sample_config (Some (js "http://localhost:3000"))
                (Some (js "print-abc123")) 8080.

(** Settings with a blank token command and a one-minute interval. *)
Definition config_blank_command : Config :=
  {| destination := Some (js "http://localhost:3000");
     tokenCommand := Some (js "   ");
     proxyPort := Some 8080%Z;
     tokenRotationMinutes := Some 1%Z |}.

(** An upstream redirect with a given [Location] value. *)
Definition redirect_302 (location : jsstring) : Res.t :=
  {| Res.statusCode := Some 302%Z;
     Res.headers := [(js "content-type", HeaderString (js "text/html"));
                     (js "location", HeaderString location)] |}.


(** A world whose token command succeeds and prints an empty line. *)
Definition blank_output_world : World :=
  {| getConfiguration := config_a;
     execSync := fun _ => ExecOutput [0x0A%N];
     listen := node_listen;
     newURL := plain_URL |}.

(* ================================================================== *)
(** ** The statements under test, in the specification's words *)
(* ================================================================== *)

(** "A request to path [/foo?x=1] is forwarded to [<destination>/foo?x=1]":
    the URL the specification names is the destination string followed by
    the inbound path and query string. *)
Definition spec_target (w : World) (destination : jsstring) (req : Req.t)
  : option URL.t :=
  newURL w (destination ++ Req.url req).

(** The outbound request described by [options] goes to the URL [u]. *)
Definition targets (isHttps : bool) (options : Options.t) (u : URL.t) : Prop :=
  isHttps = JsString.eqb (URL.protocol u) (js "https:")
  /\ Options.hostname options = URL.hostname u
  /\ Options.port options
     = (if JsString.truthy (URL.port u) then PortString (URL.port u)
        else PortNumber (if isHttps then 443 else 80))
  /\ Options.path options = URL.pathname u ++ URL.search u.

(* ================================================================== *)
(** ** The callbacks of one forwarded request *)
(* ================================================================== *)

(** After the handler has issued the outbound request, four callbacks
    share the client response [res] and the outbound request [proxyReq]:
    the response callback ([onResponse] above), the time-out callback, the
    ['error'] listener of the request and the ['close'] listener of the
    inbound request.  The response callback, on its ordinary path, adds a
    fifth: the ['error'] listener of the upstream response. *)

(** The test the response callback makes before it answers a redirect. *)
Definition redirects (proxyRes : Res.t) : bool :=
  match Res.statusCode proxyRes with
  | Some status =>
      (Z.eqb status 301 || Z.eqb status 302)
      && match JsObject.get (js "location") (Res.headers proxyRes) with
         | Some location => header_truthy location
         | None => false
         end
  | None => false
  end.

(** [proxyReq.setTimeout(30000, () => { ... })], after [proxyReq.destroy()]:
    what it writes, given [res.headersSent]. *)
Definition onTimeout (headersSent : bool) : list ClientAction :=
  if headersSent then []
  else [WriteHead 504 []; End_ (Some (js "Gateway Timeout"))].

(** [proxyReq.on('error', (err) => { ... })] *)
Definition onRequestError (headersSent : bool) (message : jsstring)
  : list ClientAction :=
  if headersSent then []
  else [WriteHead 502 []; End_ (Some (js "Proxy request failed: " ++ message))].

(** [proxyRes.on('error', (err) => { ... })] *)
Definition onResponseError (headersSent : bool) : list ClientAction :=
  if headersSent then []
  else [WriteHead 500 []; End_ (Some (js "Error streaming response"))].

(** What the callbacks of one request share. *)
Record Exchange := {
  headersSent : bool;              (* res.headersSent *)
  proxyReqDestroyed : bool;        (* proxyReq.destroy() has been called *)
  responseErrorListener : bool;    (* proxyRes.on('error', ...) is in place *)
  written : list ClientAction      (* what has been done to [res], in order *)
}.

Definition new_Exchange : Exchange :=
  {| headersSent := false; proxyReqDestroyed := false;
     responseErrorListener := false; written := [] |}.

Inductive ExchangeEvent :=
| UpstreamResponse (proxyRes : Res.t)
| RequestTimeout
| RequestError (message : jsstring)
| ResponseError
| ClientClose.

(** [res.writeHead] marks the headers as sent; every list written below
    starts with one, or is empty. *)
Definition write (actions : list ClientAction) (x : Exchange) : Exchange :=
  {| headersSent := match actions with [] => headersSent x | _ => true end;
     proxyReqDestroyed := proxyReqDestroyed x;
     responseErrorListener := responseErrorListener x;
     written := written x ++ actions |}.

Definition destroy (x : Exchange) : Exchange :=
  {| headersSent := headersSent x;
     proxyReqDestroyed := true;
     responseErrorListener := responseErrorListener x;
     written := written x |}.

(** One callback runs.  The response callback calls [res.writeHead]
    without looking at [res.headersSent]; Node's [writeHead] throws
    [ERR_HTTP_HEADERS_SENT] when the headers are out already ([None]).  An
    ['error'] of the upstream response for which no listener has been
    registered runs no code of the class. *)
Definition on_event (e : ExchangeEvent) (x : Exchange) : option Exchange :=
  match e with
  | UpstreamResponse proxyRes =>
      if headersSent x then None
      else
        let x' := write (onResponse proxyRes) x in
        Some {| headersSent := headersSent x';
                proxyReqDestroyed := proxyReqDestroyed x';
                responseErrorListener :=
                  responseErrorListener x || negb (redirects proxyRes);
                written := written x' |}
  | RequestTimeout =>
      let x' := destroy x in
      Some (write (onTimeout (headersSent x')) x')
  | RequestError message =>
      Some (write (onRequestError (headersSent x) message) x)
  | ResponseError =>
      if responseErrorListener x
      then Some (write (onResponseError (headersSent x)) x)
      else Some x
  | ClientClose => Some (destroy x)
  end.

Fixpoint on_events (es : list ExchangeEvent) (x : Exchange)
  : option Exchange :=
  match es with
  | [] => Some x
  | e :: es' =>
      match on_event e x with
      | Some x' => on_events es' x'
      | None => None
      end
  end.

Definition is_response (e : ExchangeEvent) : bool :=
  match e with
  | UpstreamResponse _ => true
  | _ => false
  end.

(** What an event writes when it is the first to touch the response. *)
Definition first_answer (e : ExchangeEvent) : list ClientAction :=
  match e with
  | UpstreamResponse proxyRes => onResponse proxyRes
  | RequestTimeout => onTimeout false
  | RequestError message => onRequestError false message
  | ResponseError => []
  | ClientClose => []
  end.

(** The listener of the upstream response is registered only after the
    status line has been written, and what has been written so far never
    holds the listener's own answer. *)
Definition exchange_invariant (x : Exchange) : Prop :=
  (responseErrorListener x = true -> headersSent x = true)
  /\ ~ In (End_ (Some (js "Error streaming response"))) (written x).

(* ================================================================== *)
(** ** Effects along a run *)
(* ================================================================== *)

(** What one event shows and runs. *)
Definition step_effects (e : Event) (this : ProxyServer) : list Effect :=
  match e with
  | CallStart w => snd (fst (start w this))
  | CallStop => snd (fst (stop this))
  | TimerFires w => snd (timer_tick w this)
  end.

Fixpoint trace (es : list Event) (this : ProxyServer) : list Effect :=
  match es with
  | [] => []
  | e :: es' => step_effects e this ++ trace es' (step e this)
  end.

(** The timer is installed only on an object whose server is bound, and
    the [proxy] field is never assigned. *)
Definition timer_invariant (this : ProxyServer) : Prop :=
  proxy this = None
  /\ (tokenRotationInterval this <> None ->
      exists srv port, server this = Some srv /\ listening srv = Some port).


(* ================================================================== *)
(** ** The other copy of the class: forwarding through [http-proxy] *)
(* ================================================================== *)

(** The sources hold a second [proxyServer.ts] whose [start] hands every
    request to an [http-proxy] instance.  Its fields, [isRunning] and [stop]
    are the same text as above; [rotateToken], [start] and the callbacks
    differ and are given here.  What [http-proxy] does with a request is
    outside the class. *)
Module LibraryVariant.

(** [rotateToken()]: the output is trimmed and stored as it is; the
    time-out is 10 seconds. *)
Definition rotateToken (w : World) (this : ProxyServer)
  : ProxyServer * list Effect :=
  if negb (shouldUseAuthentication this) then (this, [])
  else
    let disabled :=
      (with_token [] (with_shouldUseAuthentication false this),
       [ShowWarningMessage MsgAuthenticationDisabled]) in
    match tokenCommand (getConfiguration w) with
    | None => disabled
    | Some tokenCommand =>
        if JsString.is_empty tokenCommand
           || JsString.is_empty (trim tokenCommand)
        then disabled
        else
          match execSync w tokenCommand with
          | ExecOutput stdout =>
              let result := trim stdout in
              (with_token result this,
               [ExecSyncCall tokenCommand 10000;
                ShowInformationMessage MsgTokenRotated])
          | ExecThrows message =>
              (this,
               [ExecSyncCall tokenCommand 10000;
                ShowErrorMessage (MsgTokenCommandFailed message)])
          end
    end.


(** [start()]: as above, with the proxy instance created and stored before
    the server. *)
Definition start (w : World) (this : ProxyServer)
  : ProxyServer * list Effect * StartResult :=
  match server this with
  | Some _ => (this, [ShowInformationMessage MsgAlreadyRunning], Resolved false)
  | None =>
      let config := getConfiguration w in
      let destination := destination config in
      let tokenCommand := or_string (tokenCommand config) [] in
      let proxyPort := or_number (proxyPort config) 123456 in
      let tokenRotationMinutes := or_number (tokenRotationMinutes config) 60 in
      let this1 :=
        with_shouldUseAuthentication
          (negb (JsString.is_empty (trim tokenCommand))) this in
      if not_string destination then
        (this1, [ShowErrorMessage MsgDestinationNotSet], Resolved false)
      else
        let destination := or_string destination [] in
        let '(this2, eff) :=
          if shouldUseAuthentication this1 then rotateToken w this1
          else (this1, [ShowInformationMessage MsgAuthenticationDisabled]) in
        let this2' := with_proxy (Some HttpProxyHandle) this2 in
        let this3 :=
          with_server
            (Some {| captured_destination := destination;
                     listening := None |}) this2' in
        match listen w proxyPort with
        | ListenCallback =>
            let this4 :=
              with_server
                (Some {| captured_destination := destination;
                         listening := Some proxyPort |}) this3 in
            let this5 :=
              if shouldUseAuthentication this4 then
                with_tokenRotationInterval
                  (Some (tokenRotationMinutes * 60 * 1000)%Z) this4
              else this4 in
            (this5,
             eff ++ [ShowInformationMessage
                       (MsgStarted proxyPort destination
                          (shouldUseAuthentication this4))],
             Resolved true)
        | ListenThrows => (this3, eff, Rejected)
        | ListenErrorEvent => (this3, eff, Pending)
        end
  end.

(** The server's request callback: [if (this.proxy) this.proxy.web(req,
    res)]; without a proxy instance the request is left unanswered. *)
Inductive Served :=
| HandedToProxy
| LeftUnanswered.

Definition serve (this : ProxyServer) : option Served :=
  match server this with
  | Some _ =>
      Some (match proxy this with
            | Some _ => HandedToProxy
            | None => LeftUnanswered
            end)
  | None => None
  end.

Definition timer_tick (w : World) (this : ProxyServer)
  : ProxyServer * list Effect :=
  match tokenRotationInterval this with
  | Some _ => rotateToken w this
  | None => (this, [])
  end.

Definition step (e : Event) (this : ProxyServer) : ProxyServer :=
  match e with
  | CallStart w => fst (fst (start w this))
  | CallStop => fst (fst (stop this))
  | TimerFires w => fst (timer_tick w this)
  end.

Inductive reachable : ProxyServer -> Prop :=
| reachable_new : reachable new_ProxyServer
| reachable_step e this : reachable this -> reachable (step e this).

End LibraryVariant.

(* ================================================================== *)
(** ** The control panel ([panel.ts]) *)
(* ================================================================== *)

Module Panel.

(** The messages the webview posts. *)
Inductive WebviewMessage :=
| startServer
| stopServer
| saveSettings (destination tokenCommand proxyPort tokenRotationMinutes
                : jsstring)
| otherCommand.

(** The panel's own notifications. *)
Inductive Notice :=
| SettingsSavedAndRestarted   (* 'Proxy settings saved and server restarted' *)
| SettingsSaved.              (* 'Proxy settings saved' *)

(** The listener given to [onDidReceiveMessage].  For [saveSettings] the
    four [config.update] calls come first; they act on the settings store,
    and [w] is the world they leave behind, which is what the restarted
    server reads.  (Every case ends with [_update()], which redraws the
    panel and changes nothing.) *)
Definition onDidReceiveMessage (w : World) (message : WebviewMessage)
    (this : ProxyServer)
  : ProxyServer * list Effect * option Notice :=
  match message with
  | startServer =>
      let '(this', eff, _) := start w this in (this', eff, None)
  | stopServer =>
      let '(this', eff, _) := stop this in (this', eff, None)
  | saveSettings _ _ _ _ =>
      let wasRunning := isRunning this in
      if wasRunning then
        let '(this1, eff1, _) := stop this in
        let '(this2, eff2, _) := start w this1 in
        (this2, eff1 ++ eff2, Some SettingsSavedAndRestarted)
      else (this, [], Some SettingsSaved)
  | otherCommand => (this, [], None)
  end.

(** The values [_getHtmlForWebview] reads and computes before it fills
    them into the page (the page's fixed text is left out). *)
Record View := {
  destination_value : jsstring;
  tokenCommand_value : jsstring;
  proxyPort_value : Z;
  tokenRotationMinutes_value : Z;
  statusClass : jsstring;
  statusText : jsstring;
  portInfo : option Z;            (* 'Running on port: ...', or '' *)
  startButtonDisabled : bool;
  stopButtonDisabled : bool
}.

Definition getHtmlForWebview (w : World) (this : ProxyServer) : View :=
  let config := getConfiguration w in
  let proxyPort := or_number (proxyPort config) 8080 in
  let running := isRunning this in
  {| destination_value := or_string (destination config) [];
     tokenCommand_value := or_string (tokenCommand config) [];
     proxyPort_value := proxyPort;
     tokenRotationMinutes_value :=
       or_number (tokenRotationMinutes config) 60;
     statusClass := if running then js "running" else js "stopped";
     statusText := if running then js "Running" else js "Stopped";
     portInfo := if running then Some proxyPort else None;
     startButtonDisabled := running;
     stopButtonDisabled := negb running |}.

End Panel.

(* ================================================================== *)
(** ** The extension's entry points ([extension.ts]) *)
(* ================================================================== *)

(** The module keeps one variable, [proxyServer], and the panel class one
    static, [currentPanel]; both hold references to [ProxyServer] objects.
    Objects live in a heap and are named by their index, so that two
    references to one object see each other's updates. *)
Module Extension.

Record t := {
  heap : list ProxyServer;
  proxyServer : option nat;       (* [let proxyServer] *)
  currentPanel : option nat       (* [ProxyPanel.currentPanel._proxyServer] *)
}.

Fixpoint update (r : nat) (f : ProxyServer -> ProxyServer)
    (h : list ProxyServer) : list ProxyServer :=
  match h, r with
  | [], _ => []
  | s :: h', O => f s :: h'
  | s :: h', S r' => s :: update r' f h'
  end.

(** [activate(context)]: a fresh object, no panel yet. *)
Definition activate : t :=
  {| heap := [new_ProxyServer]; proxyServer := Some 0; currentPanel := None |}.

(** [if (!proxyServer) { proxyServer = new ProxyServer(); }] *)
Definition ensure (x : t) : t * nat :=
  match proxyServer x with
  | Some r => (x, r)
  | None =>
      let r := List.length (heap x) in
      ({| heap := heap x ++ [new_ProxyServer];
          proxyServer := Some r;
          currentPanel := currentPanel x |}, r)
  end.

Definition on_object (r : nat) (f : ProxyServer -> ProxyServer) (x : t) : t :=
  {| heap := update r f (heap x);
     proxyServer := proxyServer x;
     currentPanel := currentPanel x |}.

(** What can happen while the extension is active: the three commands, a
    message from the panel's webview, the panel being closed, and the
    rotation timer of an object firing. *)
Inductive Happening :=
| startProxy (w : World)
| stopProxy
| openPanel
| panelMessage (w : World) (m : Panel.WebviewMessage)
| panelDisposed
| timerFires (w : World) (r : nat).

Definition happen (e : Happening) (x : t) : t :=
  match e with
  | startProxy w =>
      let '(x', r) := ensure x in
      on_object r (fun s => fst (fst (start w s))) x'
  | stopProxy =>
      match proxyServer x with
      | Some r => on_object r (fun s => fst (fst (stop s))) x
      | None => x
      end
  | openPanel =>
      let '(x', r) := ensure x in
      match currentPanel x' with
      | Some _ => x'                         (* reveal the panel there is *)
      | None => {| heap := heap x'; proxyServer := proxyServer x';
                   currentPanel := Some r |}
      end
  | panelMessage w m =>
      match currentPanel x with
      | Some r =>
          on_object r (fun s => fst (fst (Panel.onDidReceiveMessage w m s))) x
      | None => x
      end
  | panelDisposed =>
      {| heap := heap x; proxyServer := proxyServer x; currentPanel := None |}
  | timerFires w r => on_object r (fun s => fst (timer_tick w s)) x
  end.

Definition happenings (es : list Happening) (x : t) : t :=
  fold_left (fun x e => happen e x) es x.

(** [deactivate()] *)
Definition deactivate (x : t) : t :=
  match proxyServer x with
  | Some r =>
      {| heap := update r (fun s => fst (fst (stop s))) (heap x);
         proxyServer := None;
         currentPanel := currentPanel x |}
  | None => x
  end.

End Extension.

(* ================================================================== *)
(** ** Facts about strings and objects *)
(* ================================================================== *)

Module JsStringFacts.
Import JsString.

Lemma eqb_spec (a b : jsstring) : reflect (a = b) (eqb a b).
Proof.
  revert b; induction a as [|x a IH]; intros [|y b]; simpl;
    try (constructor; congruence).
  destruct (N.eqb_spec x y) as [->|Hxy]; simpl.
  - destruct (IH b) as [->|Hab]; constructor; congruence.
  - constructor; congruence.
Qed.

Lemma eqb_refl (a : jsstring) : eqb a a = true.
Proof. destruct (eqb_spec a a); congruence. Qed.

Lemma eqb_eq (a b : jsstring) : eqb a b = true <-> a = b.
Proof. destruct (eqb_spec a b); split; congruence. Qed.

Lemma eqb_neq (a b : jsstring) : eqb a b = false <-> a <> b.
Proof. destruct (eqb_spec a b); split; congruence. Qed.

Lemma eqb_sym (a b : jsstring) : eqb a b = eqb b a.
Proof.
  destruct (eqb_spec a b) as [->|H]; [now rewrite eqb_refl|].
  symmetry; apply eqb_neq; congruence.
Qed.

Lemma remove_spaces_trimStart (s : jsstring) :
  remove_spaces (trimStart s) = remove_spaces s.
Proof.
  induction s as [|c s IH]; simpl; [reflexivity|].
  destruct (is_space c) eqn:E; simpl; rewrite ?E; simpl; auto.
Qed.

Lemma remove_spaces_rev (s : jsstring) :
  remove_spaces (rev s) = rev (remove_spaces s).
Proof.
  induction s as [|c s IH]; simpl; [reflexivity|].
  unfold remove_spaces in *. rewrite filter_app, IH; simpl.
  destruct (is_space c); simpl; [now rewrite app_nil_r | reflexivity].
Qed.

Lemma remove_spaces_trimEnd (s : jsstring) :
  remove_spaces (trimEnd s) = remove_spaces s.
Proof.
  unfold trimEnd.
  rewrite remove_spaces_rev, remove_spaces_trimStart, remove_spaces_rev.
  apply rev_involutive.
Qed.

(** Trimming first makes no difference to what the replace leaves. *)
Lemma remove_spaces_trim (s : jsstring) :
  remove_spaces (trim s) = remove_spaces s.
Proof.
  unfold trim. now rewrite remove_spaces_trimEnd, remove_spaces_trimStart.
Qed.

Lemma remove_spaces_no_space (s : jsstring) :
  forallb (fun c => negb (is_space c)) (remove_spaces s) = true.
Proof.
  apply forallb_forall. intros c Hc.
  apply filter_In in Hc. tauto.
Qed.

(** A string without white space is a fixed point of both operations. *)
Lemma trimStart_clean (s : jsstring) :
  forallb (fun c => negb (is_space c)) s = true -> trimStart s = s.
Proof.
  destruct s as [|c s]; simpl; [reflexivity|].
  intros H. apply andb_prop in H. destruct H as [H _].
  destruct (is_space c); [discriminate | reflexivity].
Qed.

Lemma forallb_rev (A : Type) (p : A -> bool) (l : list A) :
  forallb p (rev l) = forallb p l.
Proof.
  induction l as [|a l IH]; simpl; [reflexivity|].
  rewrite forallb_app, IH; simpl. rewrite andb_true_r. apply andb_comm.
Qed.

Lemma trim_clean (s : jsstring) :
  forallb (fun c => negb (is_space c)) s = true -> trim s = s.
Proof.
  intros H. unfold trim, trimEnd.
  rewrite (trimStart_clean s H).
  rewrite trimStart_clean by (now rewrite forallb_rev).
  apply rev_involutive.
Qed.

Lemma remove_spaces_clean (s : jsstring) :
  forallb (fun c => negb (is_space c)) s = true -> remove_spaces s = s.
Proof.
  induction s as [|c s IH]; simpl; [reflexivity|].
  intros H. apply andb_prop in H. destruct H as [Hc Hs].
  rewrite Hc. f_equal. now apply IH.
Qed.

End JsStringFacts.

Module JsObjectFacts.
Import JsObject.

Section Obj.
Variable V : Type.
Implicit Types (o : JsObject.t V) (k : jsstring) (v : V).

Lemma get_set_same k v o : get k (set k v o) = Some v.
Proof.
  induction o as [|[k' v'] o IH]; simpl.
  - now rewrite JsStringFacts.eqb_refl.
  - destruct (JsString.eqb k k') eqn:E; simpl; rewrite E; auto.
Qed.


Lemma get_delete_same k o : get k (delete k o) = None.
Proof.
  induction o as [|[k0 v0] o IH]; simpl; [reflexivity|].
  destruct (JsString.eqb k k0) eqn:E; simpl; rewrite ?E; auto.
Qed.

Lemma get_delete_other k k' o :
  k <> k' -> get k (delete k' o) = get k o.
Proof.
  intros Hne. induction o as [|[k0 v0] o IH]; simpl; [reflexivity|].
  destruct (JsStringFacts.eqb_spec k' k0) as [->|Hk]; simpl.
  - apply JsStringFacts.eqb_neq in Hne. now rewrite Hne.
  - now rewrite IH.
Qed.

Lemma get_None_not_In k o : get k o = None <-> ~ In k (keys o).
Proof.
  induction o as [|[k0 v0] o IH]; simpl; [tauto|].
  destruct (JsStringFacts.eqb_spec k k0) as [->|Hk].
  - split; [discriminate | tauto].
  - rewrite IH. split; [intros H [E|E]; [congruence|tauto] | tauto].
Qed.

Lemma set_fresh k v o : ~ In k (keys o) -> set k v o = o ++ [(k, v)].
Proof.
  induction o as [|[k0 v0] o IH]; simpl; [reflexivity|].
  intros H. destruct (JsStringFacts.eqb_spec k k0) as [->|Hk]; [tauto|].
  f_equal. apply IH. tauto.
Qed.

Lemma delete_app k o1 o2 : delete k (o1 ++ o2) = delete k o1 ++ delete k o2.
Proof.
  induction o1 as [|[k0 v0] o1 IH]; simpl; [reflexivity|].
  destruct (JsString.eqb k k0); simpl; now rewrite IH.
Qed.





End Obj.

End JsObjectFacts.

(* ================================================================== *)
(** ** Facts about the methods *)
(* ================================================================== *)

Import JsStringFacts JsObjectFacts.

(** [rotateToken] case by case. *)
Lemma rotateToken_disabled (w : World) (this : ProxyServer) :
  shouldUseAuthentication this = false ->
  rotateToken w this = (this, []).
Proof. intros H. unfold rotateToken. now rewrite H. Qed.

Lemma rotateToken_exec_throws (w : World) (this : ProxyServer) cmd message :
  shouldUseAuthentication this = true ->
  tokenCommand (getConfiguration w) = Some cmd ->
  JsString.is_empty (trim cmd) = false ->
  execSync w cmd = ExecThrows message ->
  rotateToken w this
  = (this, [ExecSyncCall cmd 60000;
            ShowErrorMessage (MsgTokenCommandFailed message)]).
Proof.
  intros Ha Hc Hb He. unfold rotateToken. rewrite Ha, Hc; simpl.
  rewrite Hb, He. destruct cmd; [discriminate Hb | reflexivity].
Qed.

Lemma rotateToken_exec_output (w : World) (this : ProxyServer) cmd stdout :
  shouldUseAuthentication this = true ->
  tokenCommand (getConfiguration w) = Some cmd ->
  JsString.is_empty (trim cmd) = false ->
  execSync w cmd = ExecOutput stdout ->
  rotateToken w this
  = (with_token (remove_spaces stdout) this,
     [ExecSyncCall cmd 60000; ShowInformationMessage MsgTokenRotated]).
Proof.
  intros Ha Hc Hb He. unfold rotateToken. rewrite Ha, Hc; simpl.
  rewrite Hb, He, remove_spaces_trim.
  destruct cmd; [discriminate Hb | reflexivity].
Qed.

Lemma rotateToken_blank_command (w : World) (this : ProxyServer) :
  shouldUseAuthentication this = true ->
  JsString.is_empty (trim (or_string (tokenCommand (getConfiguration w)) []))
  = true ->
  rotateToken w this
  = (with_token [] (with_shouldUseAuthentication false this),
     [ShowWarningMessage MsgAuthenticationDisabled]).
Proof.
  intros Ha Hb. unfold rotateToken. rewrite Ha; simpl.
  destruct (tokenCommand (getConfiguration w)) as [cmd|]; [|reflexivity].
  destruct cmd as [|c cmd]; [reflexivity|].
  simpl in Hb. simpl JsString.is_empty at 1. simpl orb. now rewrite Hb.
Qed.

(** The rotation writes [token] and [shouldUseAuthentication], nothing
    else. *)
Lemma rotateToken_frame (w : World) (this : ProxyServer) :
  let this' := fst (rotateToken w this) in
  server this' = server this
  /\ proxy this' = proxy this
  /\ tokenRotationInterval this' = tokenRotationInterval this.
Proof.
  unfold rotateToken.
  destruct (shouldUseAuthentication this); simpl; [|auto].
  destruct (tokenCommand (getConfiguration w)) as [cmd|]; simpl; [|auto].
  destruct (JsString.is_empty cmd || JsString.is_empty (trim cmd)); simpl;
    [auto|].
  destruct (execSync w cmd); simpl; auto.
Qed.

(** The rotation never switches authentication on. *)
Lemma rotateToken_auth_monotone (w : World) (this : ProxyServer) :
  shouldUseAuthentication (fst (rotateToken w this)) = true ->
  shouldUseAuthentication this = true.
Proof.
  unfold rotateToken.
  destruct (shouldUseAuthentication this) eqn:E; simpl; [auto|].
  now rewrite E.
Qed.

(** Whatever the rotation stores contains no white space. *)
Lemma rotateToken_no_space (w : World) (this : ProxyServer) :
  no_space (token this) = true ->
  no_space (token (fst (rotateToken w this))) = true.
Proof.
  intros H. unfold rotateToken.
  destruct (shouldUseAuthentication this); simpl; [|auto].
  destruct (tokenCommand (getConfiguration w)) as [cmd|]; simpl; [|auto].
  destruct (JsString.is_empty cmd || JsString.is_empty (trim cmd)); simpl;
    [auto|].
  destruct (execSync w cmd); simpl; auto.
  apply remove_spaces_no_space.
Qed.

(** [start] and [stop] at the edges of the state machine. *)
Lemma start_while_running (w : World) (this : ProxyServer) :
  isRunning this = true ->
  start w this
  = (this, [ShowInformationMessage MsgAlreadyRunning], Resolved false).
Proof.
  unfold isRunning, start. destruct (server this); [reflexivity|discriminate].
Qed.

Lemma stop_while_stopped (this : ProxyServer) :
  isRunning this = false ->
  stop this = (this, [ShowInformationMessage MsgNotRunning], false).
Proof.
  unfold isRunning, stop. destruct (server this); [discriminate|reflexivity].
Qed.

Lemma stop_while_running (this : ProxyServer) :
  isRunning this = true ->
  let '(this', _, ok) := stop this in
  ok = true /\ isRunning this' = false
  /\ tokenRotationInterval this' = None
  /\ shouldUseAuthentication this' = false
  /\ token this' = token this.
Proof.
  unfold isRunning, stop. destruct (server this); [|discriminate].
  intros _.
  destruct (tokenRotationInterval this) eqn:E; simpl; repeat split; exact E.
Qed.


(* ================================================================== *)
(** ** Facts about the request handler *)
(* ================================================================== *)

(** The options of the one outbound request, field by field. *)
Lemma requestHandler_options (w : World) dest (this : ProxyServer) req url :
  newURL w dest = Some url ->
  exists options body,
    requestHandler w dest this req
    = ProxyRequest (JsString.eqb (URL.protocol url) (js "https:")) options body
    /\ Options.hostname options = URL.hostname url
    /\ Options.port options
       = (if JsString.truthy (URL.port url) then PortString (URL.port url)
          else PortNumber
                 (if JsString.eqb (URL.protocol url) (js "https:")
                  then 443 else 80))
    /\ Options.path options = Req.url req
    /\ Options.method options = Req.method req
    /\ Options.rejectUnauthorized options = false
    /\ Options.headers options
       = delete_hop_headers
           (if attaches_token this then
              JsObject.set AuthorizationName
                (bearer (remove_spaces (trim (token this)))) (Req.headers req)
            else Req.headers req).
Proof.
  intros Hu. unfold requestHandler. rewrite Hu.
  eexists; eexists. split; [reflexivity|]. simpl. repeat split.
Qed.

Lemma AuthorizationName_lower :
  toLowerCase AuthorizationName = js "authorization".
Proof. reflexivity. Qed.

(** A header object with lower-cased names has no key [Authorization]. *)
Lemma lowercase_no_Authorization (h : Headers) :
  lowercase_names h -> ~ In AuthorizationName (JsObject.keys h).
Proof.
  intros Hl Hin. apply Hl in Hin. discriminate Hin.
Qed.




(** Deleting the hop headers leaves every other key alone. *)
Lemma get_hop (k : jsstring) (h : Headers) :
  k <> js "host" -> k <> js "connection" -> k <> js "proxy-connection" ->
  JsObject.get k (delete_hop_headers h) = JsObject.get k h.
Proof.
  intros H1 H2 H3. unfold delete_hop_headers.
  now rewrite !get_delete_other.
Qed.

Lemma hop_snoc_Authorization (h : Headers) v :
  delete_hop_headers (h ++ [(AuthorizationName, v)])
  = delete_hop_headers h ++ [(AuthorizationName, v)].
Proof.
  unfold delete_hop_headers. now rewrite !delete_app.
Qed.

(** Node's header table. *)
Lemma outgoingHeaders_snoc (h : Headers) k v :
  outgoingHeaders (h ++ [(k, v)]) = setHeader k v (outgoingHeaders h).
Proof.
  unfold outgoingHeaders. now rewrite fold_left_app.
Qed.




(** Sanitising a token that is clean already changes nothing. *)
Lemma sanitize_clean (t : jsstring) :
  no_space t = true -> remove_spaces (trim t) = t.
Proof.
  intros H. rewrite remove_spaces_trim. now apply remove_spaces_clean.
Qed.

Lemma attaches_token_clean (this : ProxyServer) :
  no_space (token this) = true ->
  attaches_token this
  = shouldUseAuthentication this && JsString.truthy (token this).
Proof.
  intros H. unfold attaches_token. rewrite (trim_clean _ H).
  unfold JsString.truthy.
  destruct (shouldUseAuthentication this), (token this); reflexivity.
Qed.

(** The header table sent when the token is attached. *)
Lemma sent_Authorization (h : Headers) (t : jsstring) :
  lowercase_names h ->
  JsObject.get (js "authorization")
    (outgoingHeaders
       (delete_hop_headers (JsObject.set AuthorizationName (bearer t) h)))
  = Some (AuthorizationName, bearer t).
Proof.
  intros Hl.
  rewrite set_fresh by (now apply lowercase_no_Authorization).
  rewrite hop_snoc_Authorization, outgoingHeaders_snoc.
  unfold setHeader. rewrite AuthorizationName_lower.
  apply get_set_same.
Qed.

(** Every state the object can reach holds a token free of white space. *)
Lemma start_no_space (w : World) (this : ProxyServer) :
  no_space (token this) = true ->
  no_space (token (fst (fst (start w this)))) = true.
Proof.
  intros H. unfold start.
  destruct (server this); [assumption|].
  destruct (not_string (destination (getConfiguration w))); [assumption|].
  set (this1 := with_shouldUseAuthentication _ this).
  assert (H1 : no_space (token this1) = true) by exact H.
  pose proof (rotateToken_no_space w this1 H1) as H2.
  destruct (shouldUseAuthentication this1).
  - destruct (rotateToken w this1) as [this2 eff]. simpl in H2.
    destruct (listen w _); simpl; try exact H2.
    destruct (shouldUseAuthentication this2); exact H2.
  - destruct (listen w _); simpl; try exact H1.
    match goal with |- context [if ?b then _ else _] => destruct b end;
      exact H1.
Qed.

Lemma step_no_space (e : Event) (this : ProxyServer) :
  no_space (token this) = true -> no_space (token (step e this)) = true.
Proof.
  intros H. destruct e as [w| |w]; simpl.
  - now apply start_no_space.
  - unfold stop. destruct (server this); [|assumption].
    destruct (tokenRotationInterval this); assumption.
  - unfold timer_tick. destruct (tokenRotationInterval this); [|assumption].
    now apply rotateToken_no_space.
Qed.

Lemma reachable_no_space (this : ProxyServer) :
  reachable this -> no_space (token this) = true.
Proof.
  induction 1 as [|e this _ IH]; [reflexivity|].
  now apply step_no_space.
Qed.

(* ================================================================== *)
(** ** What a successful start fixes, and what it does not *)
(* ================================================================== *)

(** Reading back a [start] that resolved to [true]. *)
Lemma start_resolved_true (w : World) (this this1 : ProxyServer) eff :
  start w this = (this1, eff, Resolved true) ->
  let config := getConfiguration w in
  server this = None
  /\ not_string (destination config) = false
  /\ listen w (or_number (proxyPort config) 123456) = ListenCallback
  /\ server this1
     = Some {| captured_destination := or_string (destination config) [];
               listening := Some (or_number (proxyPort config) 123456) |}
  /\ tokenRotationInterval this1
     = (if shouldUseAuthentication this1
        then Some (or_number (tokenRotationMinutes config) 60 * 60 * 1000)%Z
        else tokenRotationInterval this).
Proof.
  unfold start. destruct (server this) eqn:Hs; [discriminate|].
  destruct (not_string (destination (getConfiguration w))) eqn:Hd;
    [discriminate|].
  cbn [shouldUseAuthentication with_shouldUseAuthentication].
  destruct (negb (JsString.is_empty
                    (trim (or_string (tokenCommand (getConfiguration w)) []))))
    eqn:Ha.
  - pose proof (rotateToken_frame w (with_shouldUseAuthentication true this))
      as Hf.
    destruct (rotateToken w (with_shouldUseAuthentication true this))
      as [this2 eff2].
    simpl in Hf. destruct Hf as (_ & _ & Hf).
    destruct (listen w _) eqn:Hl; try discriminate.
    simpl. intros H. injection H as <- _.
    destruct (shouldUseAuthentication this2) eqn:Ha2; simpl; rewrite Ha2;
      repeat split; exact Hf.
  - destruct (listen w _) eqn:Hl; try discriminate.
    simpl. intros H. injection H as <- _. simpl. repeat split.
Qed.

(** No event of a run touches the server object or the timer. *)
Lemma step_during_run (e : Event) (this : ProxyServer) :
  isRunning this = true -> during_run e = true ->
  server (step e this) = server this
  /\ tokenRotationInterval (step e this) = tokenRotationInterval this
  /\ (shouldUseAuthentication (step e this) = true ->
      shouldUseAuthentication this = true).
Proof.
  intros Hr He. destruct e as [w| |w]; simpl; [| discriminate |].
  - rewrite (start_while_running w this Hr). simpl. auto.
  - unfold timer_tick. destruct (tokenRotationInterval this) eqn:Ht.
    + pose proof (rotateToken_frame w this) as Hf. simpl in Hf.
      rewrite Ht in Hf. repeat split; try apply Hf.
      apply rotateToken_auth_monotone.
    + simpl. auto.
Qed.

Lemma steps_during_run (es : list Event) (this : ProxyServer) :
  isRunning this = true -> forallb during_run es = true ->
  server (steps es this) = server this
  /\ tokenRotationInterval (steps es this) = tokenRotationInterval this
  /\ (shouldUseAuthentication (steps es this) = true ->
      shouldUseAuthentication this = true).
Proof.
  revert this. induction es as [|e es IH]; simpl; intros this Hr Hes; [auto|].
  apply andb_prop in Hes. destruct Hes as [He Hes].
  destruct (step_during_run e this Hr He) as (Hs & Ht & Ha).
  assert (Hr' : isRunning (step e this) = true)
    by (unfold isRunning in *; now rewrite Hs).
  destruct (IH (step e this) Hr' Hes) as (Hs' & Ht' & Ha').
  unfold steps in *. rewrite Hs', Ht'. auto.
Qed.

(** A rotation that gets as far as the command runs the one the live
    settings name. *)
Lemma rotateToken_runs_live_command (w : World) (this : ProxyServer) cmd :
  shouldUseAuthentication this = true ->
  tokenCommand (getConfiguration w) = Some cmd ->
  JsString.is_empty (trim cmd) = false ->
  executed_commands (snd (rotateToken w this)) = [cmd].
Proof.
  intros Ha Hc Hb. destruct (execSync w cmd) as [out|msg] eqn:He.
  - now rewrite (rotateToken_exec_output w this Ha Hc Hb He).
  - now rewrite (rotateToken_exec_throws w this Ha Hc Hb He).
Qed.

(** C1 (amended).  Once [start()] has succeeded, the destination, the
    listen port and the rotation interval in effect are frozen for the run:
    whatever [start] calls and timer rotations follow, under whatever
    settings, the server object keeps the destination and port read at
    start, every request is handled with that destination, and the timer
    keeps its period.  The token command is not frozen: a rotation executes
    the command found in the settings at the time it runs. *)
Theorem C1_frozen_except_tokenCommand :
  forall (w0 : World) (this0 this1 : ProxyServer) (eff : list Effect)
         (es : list Event),
    start w0 this0 = (this1, eff, Resolved true) ->
    forallb during_run es = true ->
    let config0 := getConfiguration w0 in
    let destination0 := or_string (destination config0) [] in
    let this' := steps es this1 in
    server this'
    = Some {| captured_destination := destination0;
              listening := Some (or_number (proxyPort config0) 123456) |}
    /\ (forall w req,
          serve w this' req = Some (requestHandler w destination0 this' req))
    /\ tokenRotationInterval this' = tokenRotationInterval this1
    /\ (shouldUseAuthentication this1 = true ->
        tokenRotationInterval this'
        = Some (or_number (tokenRotationMinutes config0) 60 * 60 * 1000)%Z)
    /\ (forall w cmd,
          shouldUseAuthentication this' = true ->
          tokenCommand (getConfiguration w) = Some cmd ->
          JsString.is_empty (trim cmd) = false ->
          executed_commands (snd (rotateToken w this')) = [cmd]).
Proof.
  intros w0 this0 this1 eff es Hstart Hes config0 destination0 this'.
  destruct (start_resolved_true _ _ Hstart) as (_ & _ & _ & Hsrv & Hint).
  assert (Hr : isRunning this1 = true)
    by (unfold isRunning; now rewrite Hsrv).
  destruct (steps_during_run es this1 Hr Hes) as (Hs & Ht & _).
  fold this' in Hs, Ht.
  assert (Hserver : server this'
            = Some {| captured_destination := destination0;
                      listening := Some (or_number (proxyPort config0) 123456) |})
    by (rewrite Hs; exact Hsrv).
  split; [exact Hserver|].
  split; [intros w req; unfold serve; now rewrite Hserver|].
  split; [exact Ht|].
  split.
  - intros Ha. rewrite Ht, Hint, Ha. reflexivity.
  - intros w cmd Ha Hc Hb. now apply rotateToken_runs_live_command.
Qed.

Lemma C1_frozen_except_tokenCommand_witness :
  let this1 := fst (fst (start (sample_world config_a) new_ProxyServer)) in
  let this' := steps [TimerFires (sample_world config_b)] this1 in
  server this'
  = Some {| captured_destination := js "http://localhost:3000";
            listening := Some 8080%Z |}
  /\ tokenRotationInterval this' = Some 3600000%Z.
Proof.
  pose proof (C1_frozen_except_tokenCommand
                (sample_world config_a) new_ProxyServer
                [TimerFires (sample_world config_b)]
                eq_refl eq_refl) as H.
  simpl in H. destruct H as (H1 & _ & _ & H4 & _).
  split; [exact H1 | exact (H4 eq_refl)].
Defined.

(** C1 as stated fails: the server is started with the token command
    [print-token-a]; the settings then change to [print-token-b]; the next
    timer rotation of the same run executes [print-token-b] and stores its
    output. *)
Lemma C1_counterexample :
  let w0 := sample_world config_a in
  let w1 := sample_world config_b in
  let this1 := fst (fst (start w0 new_ProxyServer)) in
  snd (start w0 new_ProxyServer) = Resolved true
  /\ executed_commands (snd (fst (start w0 new_ProxyServer)))
     = [js "print-token-a"]
  /\ token this1 = js "T1"
  /\ executed_commands (snd (timer_tick w1 this1)) = [js "print-token-b"]
  /\ token (fst (timer_tick w1 this1)) = js "T2"
  /\ tokenCommand (getConfiguration w0) <> tokenCommand (getConfiguration w1).
Proof.
  repeat split; try reflexivity. discriminate.
Qed.

(* ================================================================== *)
(** ** Failed rotations *)
(* ================================================================== *)

(** C2 (amended).  A rotation whose command fails to run (non-zero exit
    status or time-out: [execSync] throws) leaves the object exactly as it
    was, stored token included; in particular, after a successful rotation
    stored a non-empty token [T1], a failed rotation is followed by requests
    that still carry [Authorization: Bearer T1]. *)
Theorem C2_failed_command_keeps_token :
  forall (w1 w2 w : World) (this : ProxyServer)
         (cmd1 cmd2 stdout message dest : jsstring) (url : URL.t)
         (req : Req.t),
    shouldUseAuthentication this = true ->
    tokenCommand (getConfiguration w1) = Some cmd1 ->
    JsString.is_empty (trim cmd1) = false ->
    execSync w1 cmd1 = ExecOutput stdout ->
    tokenCommand (getConfiguration w2) = Some cmd2 ->
    JsString.is_empty (trim cmd2) = false ->
    execSync w2 cmd2 = ExecThrows message ->
    newURL w dest = Some url ->
    let T1 := remove_spaces stdout in
    let this1 := fst (rotateToken w1 this) in
    let this2 := fst (rotateToken w2 this1) in
    (forall that : ProxyServer,
        shouldUseAuthentication that = true ->
        fst (rotateToken w2 that) = that)
    /\ token this1 = T1
    /\ this2 = this1
    /\ token this2 = T1
    /\ (T1 <> [] ->
        exists isHttps options body,
          requestHandler w dest this2 req = ProxyRequest isHttps options body
          /\ JsObject.get AuthorizationName (Options.headers options)
             = Some (bearer T1)).
Proof.
  intros w1 w2 w this cmd1 cmd2 stdout message dest url req
         Ha Hc1 Hb1 He1 Hc2 Hb2 He2 Hu T1 this1 this2.
  assert (Hkeep : forall that, shouldUseAuthentication that = true ->
                               fst (rotateToken w2 that) = that).
  { intros that Hthat.
    now rewrite (rotateToken_exec_throws w2 that Hthat Hc2 Hb2 He2). }
  assert (H1 : this1 = with_token T1 this).
  { unfold this1. now rewrite (rotateToken_exec_output w1 this Ha Hc1 Hb1 He1). }
  assert (Ha1 : shouldUseAuthentication this1 = true)
    by (rewrite H1; exact Ha).
  assert (H2 : this2 = this1) by (apply Hkeep; exact Ha1).
  assert (Ht : token this1 = T1) by (now rewrite H1).
  split; [exact Hkeep|]. split; [exact Ht|]. split; [exact H2|].
  split; [now rewrite H2|].
  intros Hne.
  destruct (requestHandler_options w dest this2 req Hu)
    as (options & body & Hreq & _ & _ & _ & _ & _ & Hh).
  exists (JsString.eqb (URL.protocol url) (js "https:")), options, body.
  split; [exact Hreq|].
  rewrite Hh, H2.
  assert (Hclean : no_space (token this1) = true)
    by (rewrite Ht; apply remove_spaces_no_space).
  rewrite (attaches_token_clean _ Hclean), Ha1, (sanitize_clean _ Hclean), Ht.
  destruct T1 as [|c T1'] eqn:E; [congruence|]. simpl andb. cbv iota.
  rewrite get_hop by discriminate.
  apply get_set_same.
Qed.

Lemma C2_failed_command_keeps_token_witness :
  let this1 :=
    fst (rotateToken (sample_world config_a)
           (with_shouldUseAuthentication true new_ProxyServer)) in
  let this2 := fst (rotateToken (sample_world config_failing) this1) in
  token this2 = js "T1"
  /\ exists isHttps options body,
       requestHandler (sample_world config_failing)
         (js "http://localhost:3000") this2 (get_request (js "/") [])
       = ProxyRequest isHttps options body
       /\ JsObject.get AuthorizationName (Options.headers options)
          = Some (bearer (js "T1")).
Proof.
  pose proof (C2_failed_command_keeps_token
                (sample_world config_a) (sample_world config_failing)
                (sample_world config_failing)
                (with_shouldUseAuthentication true new_ProxyServer)
                (cmd1 := js "print-token-a") (cmd2 := js "exit 1")
                (stdout := js "T1" ++ [0x0A%N])
                (message := js "Command failed")
                (js "http://localhost:3000")
                (get_request (js "/") [])
                eq_refl eq_refl eq_refl eq_refl eq_refl eq_refl eq_refl eq_refl)
    as H.
  cbv zeta in H. destruct H as (_ & _ & _ & H4 & H5).
  split; [exact H4|]. apply H5. discriminate.
Defined.

(** C2 as stated fails for the third kind of failure: when the rotation
    finds the command string empty, the stored token [T1] is replaced by
    the empty string (and authentication is switched off), so the next
    request carries no [Authorization] header. *)
Lemma C2_counterexample :
  let w0 := sample_world config_a in
  let w1 := sample_world (sample_config (Some (js "http://localhost:3000"))
                                        (Some []) 8080) in
  let this1 := fst (fst (start w0 new_ProxyServer)) in
  let this2 := fst (timer_tick w1 this1) in
  token this1 = js "T1"
  /\ token this2 = []
  /\ token this2 <> token this1
  /\ shouldUseAuthentication this2 = false
  /\ (exists isHttps options body,
        serve w1 this2 (get_request (js "/") [])
        = Some (ProxyRequest isHttps options body)
        /\ JsObject.get AuthorizationName (Options.headers options) = None).
Proof.
  repeat split; try reflexivity; try discriminate.
  do 3 eexists. split; reflexivity.
Qed.

(* ================================================================== *)
(** ** Configuration errors *)
(* ================================================================== *)

(** C3 (amended).  With a missing or empty destination, [start()] on a
    stopped server fails at once with the error 'Destination URL is not
    set' and returns [false]; no listener is bound, and [server], [proxy],
    [token] and the rotation timer keep their values.  The authentication
    flag does not: it has been set, before the destination is looked at, to
    whether the token command is non-blank.  [start()] does not check the
    listen port: any non-zero port is handed to [listen] as it is, and the
    start succeeds if [listen] accepts it. *)
Theorem C3_missing_destination :
  forall (w : World) (this : ProxyServer),
    isRunning this = false ->
    let config := getConfiguration w in
    (not_string (destination config) = true ->
     let '(this', eff, result) := start w this in
     result = Resolved false
     /\ eff = [ShowErrorMessage MsgDestinationNotSet]
     /\ server this' = None
     /\ proxy this' = proxy this
     /\ token this' = token this
     /\ tokenRotationInterval this' = tokenRotationInterval this
     /\ shouldUseAuthentication this'
        = negb (JsString.is_empty
                  (trim (or_string (tokenCommand config) []))))
    /\ (forall p : Z,
          not_string (destination config) = false ->
          proxyPort config = Some p -> p <> 0%Z ->
          listen w p = ListenCallback ->
          let '(this', _, result) := start w this in
          result = Resolved true
          /\ option_map listening (server this') = Some (Some p)).
Proof.
  intros w this Hr config. unfold isRunning in Hr.
  destruct (server this) eqn:Hs; [discriminate|]. split.
  - intros Hd. unfold start. rewrite Hs. fold config. rewrite Hd.
    simpl. repeat split. exact Hs.
  - intros p Hd Hp Hp0 Hl.
    destruct (start w this) as [[this' eff] result] eqn:Hstart.
    unfold start in Hstart. rewrite Hs in Hstart. fold config in Hstart.
    rewrite Hd, Hp in Hstart. simpl or_number in Hstart.
    apply Z.eqb_neq in Hp0. rewrite Hp0, Hl in Hstart.
    match type of Hstart with
    | context [if ?b then rotateToken w ?s else ?e] =>
        destruct (if b then rotateToken w s else e) as [this2 eff2]
    end.
    injection Hstart as <- _ <-. split; [reflexivity|].
    destruct (shouldUseAuthentication _); reflexivity.
Qed.

Lemma C3_missing_destination_witness :
  let w := sample_world (sample_config (Some []) (Some (js "print-token-a"))
                                       8080) in
  let '(this', eff, result) := start w new_ProxyServer in
  result = Resolved false
  /\ eff = [ShowErrorMessage MsgDestinationNotSet]
  /\ server this' = None
  /\ proxy this' = None
  /\ token this' = []
  /\ tokenRotationInterval this' = None
  /\ shouldUseAuthentication this' = true.
Proof.
  exact (proj1 (C3_missing_destination
                  (sample_world (sample_config (Some [])
                                   (Some (js "print-token-a")) 8080))
                  new_ProxyServer eq_refl) eq_refl).
Defined.

(** C3 as stated fails.  (1) The destination is missing and a token command
    is configured: the failed [start()] has switched the authentication
    flag of a fresh object from [false] to [true].  (2) The port is 70000:
    nothing in [start()] rejects it; the call runs up to [listen], which
    throws, so the promise is rejected with the token rotated and the
    [server] field assigned although nothing is bound. *)
Lemma C3_counterexample :
  let w := sample_world (sample_config None (Some (js "print-token-a"))
                                       8080) in
  let w' := sample_world (sample_config (Some (js "http://localhost:3000"))
                                        (Some (js "print-token-a")) 70000) in
  (snd (start w new_ProxyServer) = Resolved false
   /\ shouldUseAuthentication new_ProxyServer = false
   /\ shouldUseAuthentication (fst (fst (start w new_ProxyServer))) = true
   /\ fst (fst (start w new_ProxyServer)) <> new_ProxyServer)
  /\ (snd (start w' new_ProxyServer) = Rejected
      /\ isRunning (fst (fst (start w' new_ProxyServer))) = true
      /\ token (fst (fst (start w' new_ProxyServer))) = js "T1"
      /\ option_map listening (server (fst (fst (start w' new_ProxyServer))))
         = Some None
      /\ fst (fst (start w' new_ProxyServer)) <> new_ProxyServer).
Proof.
  repeat split; try reflexivity; discriminate.
Qed.

(* ================================================================== *)
(** ** Where a request is forwarded to *)
(* ================================================================== *)

(** C4 (amended).  For every destination URL and every inbound request,
    the outbound request goes to the destination's scheme, host and port,
    with exactly the inbound path and query string as its path; the
    destination URL's own path and query are not used.  It therefore
    targets [<destination>/foo?x=1] whenever that URL has the destination's
    origin and the inbound path and query as its own, as is the case for a
    destination without a path component. *)
Theorem C4_forward_target :
  forall (w : World) (dest : jsstring) (this : ProxyServer) (req : Req.t)
         (url : URL.t),
    newURL w dest = Some url ->
    let isHttps := JsString.eqb (URL.protocol url) (js "https:") in
    exists options body,
      requestHandler w dest this req = ProxyRequest isHttps options body
      /\ Options.hostname options = URL.hostname url
      /\ Options.port options
         = (if JsString.truthy (URL.port url) then PortString (URL.port url)
            else PortNumber (if isHttps then 443 else 80))
      /\ Options.path options = Req.url req
      /\ (forall target : URL.t,
            spec_target w dest req = Some target ->
            URL.protocol target = URL.protocol url ->
            URL.hostname target = URL.hostname url ->
            URL.port target = URL.port url ->
            URL.pathname target ++ URL.search target = Req.url req ->
            targets isHttps options target).
Proof.
  intros w dest this req url Hu isHttps.
  destruct (requestHandler_options w dest this req Hu)
    as (options & body & Hreq & Hh & Hp & Hpath & _).
  exists options, body.
  split; [exact Hreq|]. split; [exact Hh|]. split; [exact Hp|].
  split; [exact Hpath|].
  intros target _ Hproto Hhost Hport Hrest.
  unfold targets. rewrite Hproto, Hhost, Hport, Hrest. auto.
Qed.

Lemma C4_forward_target_witness :
  exists options body,
    requestHandler (sample_world default_config) (js "http://localhost:3000")
      new_ProxyServer (get_request (js "/foo?x=1") [])
    = ProxyRequest false options body
    /\ Options.hostname options = js "localhost"
    /\ Options.port options = PortString (js "3000")
    /\ Options.path options = js "/foo?x=1"
    /\ targets false options
         {| URL.protocol := js "http:"; URL.hostname := js "localhost";
            URL.port := js "3000"; URL.pathname := js "/foo";
            URL.search := js "?x=1" |}.
Proof.
  destruct (C4_forward_target (sample_world default_config)
              (js "http://localhost:3000") new_ProxyServer
              (get_request (js "/foo?x=1") []) eq_refl)
    as (options & body & H1 & H2 & H3 & H4 & H5).
  exists options, body.
  split; [exact H1|]. split; [exact H2|]. split; [exact H3|].
  split; [exact H4|].
  exact (H5 _ eq_refl eq_refl eq_refl eq_refl eq_refl).
Defined.

(** C4 as stated fails for a destination with a path of its own: with the
    destination [http://example.com/api] (the example of the README), the
    request [/foo?x=1] goes out with path [/foo?x=1], not [/api/foo?x=1]:
    the prefix [/api] is lost. *)
Lemma C4_counterexample :
  let w := sample_world default_config in
  let dest := js "http://example.com/api" in
  let req := get_request (js "/foo?x=1") [] in
  exists options body target,
    requestHandler w dest new_ProxyServer req = ProxyRequest false options body
    /\ spec_target w dest req = Some target
    /\ URL.pathname target ++ URL.search target = js "/api/foo?x=1"
    /\ Options.hostname options = js "example.com"
    /\ Options.path options = js "/foo?x=1"
    /\ ~ targets false options target.
Proof.
  do 3 eexists. repeat split.
  intros (_ & _ & _ & H). discriminate H.
Qed.

(* ================================================================== *)
(** ** The attached header *)
(* ================================================================== *)

(** From the command's raw output to the header: a successful rotation
    stores the output with every white-space code unit removed, and the
    handler attaches exactly that after [Bearer ]. *)
Lemma rotated_token_header (w w' : World) (this : ProxyServer)
    (cmd stdout dest : jsstring) (url : URL.t) (req : Req.t) :
  shouldUseAuthentication this = true ->
  tokenCommand (getConfiguration w) = Some cmd ->
  JsString.is_empty (trim cmd) = false ->
  execSync w cmd = ExecOutput stdout ->
  newURL w' dest = Some url ->
  remove_spaces stdout <> [] ->
  let this1 := fst (rotateToken w this) in
  token this1 = remove_spaces stdout
  /\ no_space (token this1) = true
  /\ exists isHttps options body,
       requestHandler w' dest this1 req = ProxyRequest isHttps options body
       /\ JsObject.get AuthorizationName (Options.headers options)
          = Some (bearer (remove_spaces stdout))
       /\ (lowercase_names (Req.headers req) ->
           JsObject.get (js "authorization")
             (outgoingHeaders (Options.headers options))
           = Some (AuthorizationName, bearer (remove_spaces stdout))).
Proof.
  intros Ha Hc Hb He Hu Hne this1.
  assert (H1 : this1 = with_token (remove_spaces stdout) this).
  { unfold this1. now rewrite (rotateToken_exec_output w this Ha Hc Hb He). }
  assert (Ht : token this1 = remove_spaces stdout) by (now rewrite H1).
  assert (Hclean : no_space (token this1) = true)
    by (rewrite Ht; apply remove_spaces_no_space).
  split; [exact Ht|]. split; [exact Hclean|].
  destruct (requestHandler_options w' dest this1 req Hu)
    as (options & body & Hreq & _ & _ & _ & _ & _ & Hh).
  exists (JsString.eqb (URL.protocol url) (js "https:")), options, body.
  split; [exact Hreq|].
  assert (Hatt : attaches_token this1 = true).
  { rewrite (attaches_token_clean _ Hclean), Ht, H1. simpl.
    rewrite Ha. destruct (remove_spaces stdout); [congruence|reflexivity]. }
  rewrite Hh, Hatt, (sanitize_clean _ Hclean), Ht. split.
  - rewrite get_hop by discriminate. apply get_set_same.
  - intros Hl. now apply sent_Authorization.
Qed.



(* ================================================================== *)
(** ** Runs without a token command *)
(* ================================================================== *)

Lemma start_blank_command (w : World) (this : ProxyServer) :
  isRunning this = false ->
  JsString.is_empty (trim (or_string (tokenCommand (getConfiguration w)) []))
  = true ->
  shouldUseAuthentication (fst (fst (start w this))) = false.
Proof.
  unfold isRunning, start. destruct (server this); [discriminate|].
  intros _ Hb. rewrite Hb. simpl.
  destruct (not_string (destination (getConfiguration w))); [reflexivity|].
  destruct (listen w _); reflexivity.
Qed.

Lemma requestHandler_auth_off (w : World) dest (this : ProxyServer) req :
  shouldUseAuthentication this = false ->
  match requestHandler w dest this req with
  | ProxyRequest _ options _ =>
      Options.headers options = delete_hop_headers (Req.headers req)
  | InternalServerError => True
  end.
Proof.
  intros Ha. unfold requestHandler.
  destruct (newURL w dest); [|exact I].
  now rewrite Ha.
Qed.

(** C6.  If the token command is blank when the server is started, then
    for every request of that run, whatever timer rotations and [start]
    calls come in between, under whatever settings and rotation interval,
    the handler attaches no [Authorization] header: the outbound headers are
    the inbound ones less [host], [connection] and [proxy-connection]. *)
Theorem C6_no_authorization_without_command :
  forall (w0 : World) (this0 : ProxyServer) (es : list Event)
         (w : World) (req : Req.t),
    isRunning this0 = false ->
    JsString.is_empty
      (trim (or_string (tokenCommand (getConfiguration w0)) [])) = true ->
    isRunning (fst (fst (start w0 this0))) = true ->
    forallb during_run es = true ->
    let this' := steps es (fst (fst (start w0 this0))) in
    shouldUseAuthentication this' = false
    /\ match serve w this' req with
       | Some (ProxyRequest _ options _) =>
           Options.headers options = delete_hop_headers (Req.headers req)
           /\ JsObject.get AuthorizationName (Options.headers options)
              = JsObject.get AuthorizationName (Req.headers req)
           /\ (lowercase_names (Req.headers req) ->
               JsObject.get AuthorizationName (Options.headers options) = None)
       | Some InternalServerError => True
       | None => False
       end.
Proof.
  intros w0 this0 es w req Hr0 Hb Hr1 Hes this'.
  pose proof (start_blank_command w0 this0 Hr0 Hb) as Ha1.
  destruct (steps_during_run es _ Hr1 Hes) as (Hs & _ & Hmono).
  fold this' in Hs, Hmono.
  assert (Ha : shouldUseAuthentication this' = false).
  { destruct (shouldUseAuthentication this') eqn:E; [|reflexivity].
    rewrite Hmono in Ha1 by reflexivity. discriminate Ha1. }
  split; [exact Ha|].
  unfold serve. rewrite Hs.
  unfold isRunning in Hr1.
  destruct (server (fst (fst (start w0 this0)))) as [srv|]; [|discriminate].
  pose proof (requestHandler_auth_off w (captured_destination srv) this' req Ha)
    as Hh.
  destruct (requestHandler w (captured_destination srv) this' req)
    as [isHttps options body|]; [|exact I].
  rewrite Hh. split; [reflexivity|]. split.
  - apply get_hop; discriminate.
  - intros Hl. rewrite get_hop by discriminate.
    apply get_None_not_In. now apply lowercase_no_Authorization.
Qed.

Lemma C6_no_authorization_without_command_witness :
  let this1 :=
    fst (fst (start (sample_world config_blank_command) new_ProxyServer)) in
  let this' :=
    steps [TimerFires (sample_world config_a);
           CallStart (sample_world config_a)] this1 in
  shouldUseAuthentication this' = false
  /\ match serve (sample_world config_a) this'
             (get_request (js "/foo") [(js "host", HeaderString (js "h"))])
     with
     | Some (ProxyRequest _ options _) => Options.headers options = []
     | _ => False
     end.
Proof.
  pose proof (C6_no_authorization_without_command
                (sample_world config_blank_command) new_ProxyServer
                [TimerFires (sample_world config_a);
                 CallStart (sample_world config_a)]
                (sample_world config_a)
                (get_request (js "/foo") [(js "host", HeaderString (js "h"))])
                eq_refl eq_refl eq_refl eq_refl) as H.
  cbv zeta in H. destruct H as (H1 & H2).
  split; [exact H1|].
  vm_compute in H2. vm_compute. exact (proj1 H2).
Defined.

(* ================================================================== *)
(** ** Redirects *)
(* ================================================================== *)

(** C7 (amended).  For every upstream response with status 301 or 302 that
    carries a non-empty [Location] header, the response callback writes the
    same status with that [Location] header alone and ends the response
    without a body; these two actions on the client response are all it
    does, so the redirect is not followed. *)
Theorem C7_redirect_passthrough :
  forall (proxyRes : Res.t) (status : Z) (location : HeaderValue),
    Res.statusCode proxyRes = Some status ->
    status = 301%Z \/ status = 302%Z ->
    JsObject.get (js "location") (Res.headers proxyRes) = Some location ->
    header_truthy location = true ->
    onResponse proxyRes
    = [WriteHead status [(LocationName, location)]; End_ None].
Proof.
  intros proxyRes status location Hs Hst Hl Ht.
  unfold onResponse. rewrite Hs, Hl, Ht.
  destruct Hst as [-> | ->]; reflexivity.
Qed.

Lemma C7_redirect_passthrough_witness :
  onResponse (redirect_302 (js "https://x/y"))
  = [WriteHead 302 [(js "Location", HeaderString (js "https://x/y"))];
     End_ None].
Proof.
  exact (C7_redirect_passthrough (redirect_302 (js "https://x/y"))
           eq_refl (or_intror eq_refl) eq_refl eq_refl).
Defined.

(** C7 as stated fails when the [Location] header is there but empty: the
    test [if (location)] is false for [''], and the response takes the
    ordinary path, with all upstream headers copied and the upstream body
    streamed to the client. *)
Lemma C7_counterexample :
  let proxyRes := redirect_302 [] in
  JsObject.get (js "location") (Res.headers proxyRes) = Some (HeaderString [])
  /\ onResponse proxyRes
     = [WriteHead 302 (Res.headers proxyRes); PipeUpstreamBody]
  /\ onResponse proxyRes
     <> [WriteHead 302 [(LocationName, HeaderString [])]; End_ None].
Proof.
  repeat split; try reflexivity. discriminate.
Qed.

(* ================================================================== *)
(** ** The lifecycle *)
(* ================================================================== *)

(** When [listen] does not call back, [start] has not succeeded, yet
    [isRunning()] answers [true] and a further [start] is refused. *)
Lemma start_not_bound_still_running (w : World) (this : ProxyServer) :
  isRunning this = false ->
  not_string (destination (getConfiguration w)) = false ->
  listen w (or_number (proxyPort (getConfiguration w)) 123456)
  <> ListenCallback ->
  let '(this', _, result) := start w this in
  result <> Resolved true
  /\ isRunning this' = true
  /\ option_map listening (server this') = Some None.
Proof.
  unfold isRunning at 1, start. destruct (server this); [discriminate|].
  intros _ Hd Hl. rewrite Hd.
  match goal with |- context [if ?b then rotateToken w ?s else ?e] =>
    destruct (if b then rotateToken w s else e) as [this2 eff] end.
  destruct (listen w _); [congruence| |]; repeat split; discriminate.
Qed.

(** C8, at the extension's default settings.  [package.json] sets the
    default port to 123456, which [listen] refuses: the promise returned by
    [start()] is rejected and nothing is bound, but the [server] field
    stays assigned, so [isRunning()] is [true] after a start that did not
    succeed, and the next [start()] is refused as "already running". *)
Theorem C8_default_settings_start :
  let w := sample_world default_config in
  let this' := fst (fst (start w new_ProxyServer)) in
  snd (start w new_ProxyServer) = Rejected
  /\ isRunning this' = true
  /\ option_map listening (server this') = Some None
  /\ tokenRotationInterval this' = None
  /\ start w this'
     = (this', [ShowInformationMessage MsgAlreadyRunning], Resolved false).
Proof.
  repeat split.
Qed.

(* ================================================================== *)
(** ** Certificate checks and the client's own credentials *)
(* ================================================================== *)

(** C9.  Every outbound request the handler builds has
    [rejectUnauthorized: false] in its options. *)
Theorem C9_rejectUnauthorized_false :
  forall (w : World) (dest : jsstring) (this : ProxyServer) (req : Req.t),
    match requestHandler w dest this req with
    | ProxyRequest _ options _ => Options.rejectUnauthorized options = false
    | InternalServerError => True
    end.
Proof.
  intros w dest this req. unfold requestHandler.
  destruct (newURL w dest); [reflexivity | exact I].
Qed.



(* ================================================================== *)
(** ** More about the request handler *)
(* ================================================================== *)





(** X2.  Whatever the upstream response, the response callback writes one
    status line, first, with the upstream status (500 when it is missing),
    then either ends the response (redirect) or streams the upstream body;
    the headers it writes never contain [connection] or
    [proxy-connection]; on the streaming path every other upstream header
    is passed on unchanged. *)
Theorem response_relay :
  forall proxyRes : Res.t,
    exists (h : Headers) (rest : list ClientAction),
      onResponse proxyRes
      = WriteHead (or_number (Res.statusCode proxyRes) 500) h :: rest
      /\ JsObject.get (js "connection") h = None
      /\ JsObject.get (js "proxy-connection") h = None
      /\ ((redirects proxyRes = true
           /\ rest = [End_ None]
           /\ JsObject.get LocationName h
              = JsObject.get (js "location") (Res.headers proxyRes))
          \/ (redirects proxyRes = false
              /\ rest = [PipeUpstreamBody]
              /\ forall k, k <> js "connection" -> k <> js "proxy-connection" ->
                           JsObject.get k h
                           = JsObject.get k (Res.headers proxyRes))).
Proof.
  intros proxyRes.
  assert (Hpass :
    exists h rest,
      [WriteHead (or_number (Res.statusCode proxyRes) 500)
         (JsObject.delete (js "proxy-connection")
            (JsObject.delete (js "connection") (Res.headers proxyRes)));
       PipeUpstreamBody]
      = WriteHead (or_number (Res.statusCode proxyRes) 500) h :: rest
      /\ JsObject.get (js "connection") h = None
      /\ JsObject.get (js "proxy-connection") h = None
      /\ rest = [PipeUpstreamBody]
      /\ forall k, k <> js "connection" -> k <> js "proxy-connection" ->
                   JsObject.get k h = JsObject.get k (Res.headers proxyRes)).
  { eexists; eexists. split; [reflexivity|]. split.
    - rewrite get_delete_other by discriminate. apply get_delete_same.
    - split; [apply get_delete_same|]. split; [reflexivity|].
      intros k H1 H2. now rewrite !get_delete_other. }
  destruct Hpass as (h & rest & He & Hc & Hp & Hr & Hk).
  unfold onResponse, redirects.
  destruct (Res.statusCode proxyRes) as [status|] eqn:Hs;
    [|exists h, rest; rewrite He; auto 10].
  destruct (Z.eqb status 301 || Z.eqb status 302) eqn:Hst;
    [|exists h, rest; rewrite He; auto 10].
  destruct (JsObject.get (js "location") (Res.headers proxyRes))
    as [location|] eqn:Hl; [|exists h, rest; rewrite He; auto 10].
  destruct (header_truthy location) eqn:Ht;
    [|exists h, rest; rewrite He; auto 10].
  exists [(LocationName, location)], [End_ None].
  split.
  - simpl. destruct (Z.eqb_spec status 0) as [->|]; [discriminate Hst|].
    reflexivity.
  - split; [reflexivity|]. split; [reflexivity|]. left. auto.
Qed.

(* ================================================================== *)
(** ** The callbacks of one request, in any order *)
(* ================================================================== *)

Lemma onResponse_shape (proxyRes : Res.t) :
  exists status h,
    onResponse proxyRes = [WriteHead status h; End_ None]
    \/ onResponse proxyRes = [WriteHead status h; PipeUpstreamBody].
Proof.
  unfold onResponse.
  destruct (Res.statusCode proxyRes) as [status|]; [|eauto].
  destruct (Z.eqb status 301 || Z.eqb status 302); [|eauto].
  destruct (JsObject.get (js "location") (Res.headers proxyRes))
    as [location|]; [|eauto].
  destruct (header_truthy location); eauto.
Qed.

(** With the headers out, a callback other than the response callback
    writes nothing. *)
Lemma on_event_sent (e : ExchangeEvent) (x : Exchange) :
  headersSent x = true -> is_response e = false ->
  exists x',
    on_event e x = Some x'
    /\ written x' = written x
    /\ headersSent x' = true.
Proof.
  intros Hs He.
  destruct e as [p| |m| |]; simpl in *; try discriminate.
  - eexists. split; [reflexivity|]. simpl. rewrite Hs. simpl.
    rewrite app_nil_r. auto.
  - eexists. split; [reflexivity|]. rewrite Hs. simpl.
    rewrite app_nil_r. auto.
  - destruct (responseErrorListener x).
    + eexists. split; [reflexivity|]. rewrite Hs. simpl.
      rewrite app_nil_r. auto.
    + eexists. split; [reflexivity|]. auto.
  - eexists. split; [reflexivity|]. simpl. auto.
Qed.

Lemma on_events_sent (es : list ExchangeEvent) (x : Exchange) :
  headersSent x = true ->
  forallb (fun e => negb (is_response e)) es = true ->
  exists x',
    on_events es x = Some x'
    /\ written x' = written x
    /\ headersSent x' = true.
Proof.
  revert x. induction es as [|e es IH]; simpl; intros x Hs Hes; [eauto|].
  apply andb_prop in Hes. destruct Hes as [He Hes].
  apply negb_true_iff in He.
  destruct (on_event_sent e x Hs He) as (x1 & H1 & Hw1 & Hs1).
  rewrite H1.
  destruct (IH x1 Hs1 Hes) as (x' & H' & Hw' & Hs').
  exists x'. rewrite Hw', Hw1. auto.
Qed.

(** X3.  The first callback that answers decides what the client gets:
    when the upstream response, the time-out or a request error comes first
    on a fresh request, the client receives that callback's answer (the
    relayed response, 504 'Gateway Timeout', or 502 'Proxy request failed:
    ...') and nothing more, whatever time-outs, errors and disconnects
    follow; none of these later callbacks throws. *)
Theorem first_answer_stands :
  forall (e : ExchangeEvent) (es : list ExchangeEvent),
    first_answer e <> [] ->
    forallb (fun e' => negb (is_response e')) es = true ->
    exists x',
      on_events (e :: es) new_Exchange = Some x'
      /\ written x' = first_answer e
      /\ headersSent x' = true.
Proof.
  intros e es Hne Hes.
  assert (H1 : exists x1, on_event e new_Exchange = Some x1
                          /\ written x1 = first_answer e
                          /\ headersSent x1 = true).
  { destruct e as [p| |m| |]; simpl in *; try congruence.
    - eexists. split; [reflexivity|]. simpl.
      destruct (onResponse_shape p) as (st & h & [-> | ->]); auto.
    - eexists. split; [reflexivity|]. auto.
    - eexists. split; [reflexivity|]. auto. }
  destruct H1 as (x1 & H1 & Hw1 & Hs1).
  simpl. rewrite H1.
  destruct (on_events_sent es x1 Hs1 Hes) as (x' & H' & Hw' & Hs').
  exists x'. rewrite Hw', Hw1. auto.
Qed.

Lemma first_answer_stands_witness :
  exists x',
    on_events [RequestTimeout; RequestError (js "socket hang up"); ClientClose]
      new_Exchange = Some x'
    /\ written x' = [WriteHead 504 []; End_ (Some (js "Gateway Timeout"))]
    /\ headersSent x' = true.
Proof.
  apply (first_answer_stands RequestTimeout
           [RequestError (js "socket hang up"); ClientClose]).
  - discriminate.
  - reflexivity.
Defined.

Lemma on_event_invariant (e : ExchangeEvent) (x x' : Exchange) :
  exchange_invariant x -> on_event e x = Some x' -> exchange_invariant x'.
Proof.
  intros [Hl Hw] He. unfold exchange_invariant.
  destruct e as [p| |m| |]; simpl in He.
  - destruct (headersSent x) eqn:Hs; [discriminate|].
    injection He as <-. simpl.
    destruct (onResponse_shape p) as (st & h & [Hp | Hp]); rewrite Hp; simpl;
      (split; [reflexivity|]);
      intros Hin; apply in_app_or in Hin;
      destruct Hin as [Hin | [Hin | [Hin | []]]];
      try discriminate Hin; contradiction.
  - injection He as <-. simpl. split.
    + intros H. apply Hl in H. rewrite H. reflexivity.
    + destruct (headersSent x); simpl.
      * now rewrite app_nil_r.
      * intros Hin. apply in_app_or in Hin.
        destruct Hin as [Hin | [Hin | [Hin | []]]];
          try discriminate Hin; contradiction.
  - injection He as <-. simpl. split.
    + intros H. apply Hl in H. rewrite H. reflexivity.
    + destruct (headersSent x); simpl.
      * now rewrite app_nil_r.
      * intros Hin. apply in_app_or in Hin.
        destruct Hin as [Hin | [Hin | [Hin | []]]];
          [contradiction | discriminate Hin | cbv in Hin; discriminate Hin].
  - destruct (responseErrorListener x) eqn:Hr.
    + injection He as <-. rewrite (Hl eq_refl). simpl.
      rewrite app_nil_r. rewrite Hr. auto.
    + injection He as <-. split; [intros H; congruence | exact Hw].
  - injection He as <-. simpl. auto.
Qed.

(** X4.  Whatever callbacks run on a request and in whatever order, the
    client is never sent 'Error streaming response': the listener that would
    write it is registered after the status line has gone out, so its test
    of [res.headersSent] always fails. *)
Theorem stream_error_never_answered :
  forall (es : list ExchangeEvent) (x' : Exchange),
    on_events es new_Exchange = Some x' ->
    ~ In (End_ (Some (js "Error streaming response"))) (written x').
Proof.
  intros es x' H.
  assert (G : forall es x x',
            exchange_invariant x -> on_events es x = Some x' ->
            exchange_invariant x').
  { clear. induction es as [|e es IH]; simpl; intros x x' Hinv He.
    - injection He as <-. exact Hinv.
    - destruct (on_event e x) as [x1|] eqn:H1; [|discriminate].
      apply (IH x1 x'); [|exact He].
      eapply on_event_invariant; eauto. }
  apply (G es new_Exchange x'); [|exact H].
  split; [discriminate | simpl; tauto].
Qed.

Lemma stream_error_never_answered_witness :
  ~ In (End_ (Some (js "Error streaming response")))
       [WriteHead 200 []; PipeUpstreamBody].
Proof.
  apply (stream_error_never_answered
           [UpstreamResponse {| Res.statusCode := Some 200%Z;
                                Res.headers := [] |};
            ResponseError; RequestTimeout]
           (x' := {| headersSent := true; proxyReqDestroyed := true;
                     responseErrorListener := true;
                     written := [WriteHead 200 []; PipeUpstreamBody] |})).
  reflexivity.
Defined.

(* ================================================================== *)
(** ** Invariants of the object *)
(* ================================================================== *)

Lemma start_timer_invariant (w : World) (this : ProxyServer) :
  timer_invariant this -> timer_invariant (fst (fst (start w this))).
Proof.
  intros Hinv. pose proof Hinv as [Hp Ht]. unfold start.
  destruct (server this) eqn:Hs; [exact Hinv|].
  assert (Hnone : tokenRotationInterval this = None).
  { destruct (tokenRotationInterval this) eqn:E; [|reflexivity].
    destruct Ht as (srv & port & Hsrv & _); [discriminate|congruence]. }
  destruct (not_string (destination (getConfiguration w)));
    [split; [exact Hp | simpl; congruence]|].
  cbn [shouldUseAuthentication with_shouldUseAuthentication].
  set (this1 := with_shouldUseAuthentication _ this).
  assert (Hf : forall this2 eff,
             (if negb (JsString.is_empty
                         (trim (or_string
                                  (tokenCommand (getConfiguration w)) [])))
              then rotateToken w this1
              else (this1, [ShowInformationMessage MsgAuthenticationDisabled]))
             = (this2, eff) ->
             proxy this2 = None /\ tokenRotationInterval this2 = None).
  { intros this2 eff H.
    destruct (negb _).
    - pose proof (rotateToken_frame w this1) as Hfr. rewrite H in Hfr.
      simpl in Hfr. destruct Hfr as (_ & Hp2 & Ht2).
      rewrite Hp2, Ht2. auto.
    - injection H as <- _. auto. }
  destruct (if negb _ then rotateToken w this1 else _) as [this2 eff] eqn:E.
  destruct (Hf this2 eff eq_refl) as [Hp2 Ht2].
  destruct (listen w _); simpl.
  - destruct (shouldUseAuthentication this2); simpl;
      (split; [exact Hp2 | intros _; do 2 eexists; split; reflexivity]).
  - split; [exact Hp2 | intros H; simpl in H; congruence].
  - split; [exact Hp2 | intros H; simpl in H; congruence].
Qed.

Lemma step_timer_invariant (e : Event) (this : ProxyServer) :
  timer_invariant this -> timer_invariant (step e this).
Proof.
  intros Hinv. destruct e as [w| |w]; simpl.
  - now apply start_timer_invariant.
  - pose proof Hinv as [Hp Ht]. unfold stop.
    destruct (server this); [|exact Hinv].
    destruct (tokenRotationInterval this) eqn:E; split;
      try reflexivity; intros H; simpl in H; try rewrite E in H;
      now elim H.
  - destruct Hinv as [Hp Ht]. unfold timer_tick.
    destruct (tokenRotationInterval this) eqn:E; [|split; [assumption|]].
    + pose proof (rotateToken_frame w this) as (Hs & Hp' & Ht'). simpl in *.
      split; [congruence|]. rewrite Hs. intros _. apply Ht. congruence.
    + simpl. congruence.
Qed.

Lemma reachable_timer_invariant (this : ProxyServer) :
  reachable this -> timer_invariant this.
Proof.
  induction 1 as [|e this _ IH].
  - split; [reflexivity | simpl; congruence].
  - now apply step_timer_invariant.
Qed.

(** X5.  In every state the object can reach, the rotation timer is
    installed only while the server is bound to its port, and the [proxy]
    field is never assigned; so on an object that is not running a timer
    event changes nothing and runs no command. *)
Theorem timer_only_while_listening :
  forall this : ProxyServer,
    reachable this ->
    proxy this = None
    /\ (forall ms, tokenRotationInterval this = Some ms ->
                   exists srv port,
                     server this = Some srv /\ listening srv = Some port)
    /\ (isRunning this = false ->
        forall w, timer_tick w this = (this, [])).
Proof.
  intros this Hr.
  destruct (reachable_timer_invariant Hr) as [Hp Ht].
  split; [exact Hp|]. split.
  - intros ms Hms. apply Ht. congruence.
  - intros Hrun w. unfold timer_tick.
    destruct (tokenRotationInterval this) eqn:E; [|reflexivity].
    destruct Ht as (srv & port & Hs & _); [congruence|].
    unfold isRunning in Hrun. rewrite Hs in Hrun. discriminate.
Qed.

Lemma timer_only_while_listening_witness :
  let this :=
    steps [CallStart (sample_world config_a); CallStop] new_ProxyServer in
  proxy this = None
  /\ forall w, timer_tick w this = (this, []).
Proof.
  destruct (timer_only_while_listening
              (reachable_step CallStop
                 (reachable_step (CallStart (sample_world config_a))
                    reachable_new)))
    as (H1 & _ & H3).
  split; [exact H1 | exact (H3 eq_refl)].
Defined.

(** X6.  Stopping does not clear the token, and a failing token command
    does not clear it either: when a running server is stopped and started
    again while the command fails, the new run is up with authentication on
    and the token of the previous run, and (the token being non-empty)
    attaches it to every request. *)
Theorem restart_keeps_previous_token :
  forall (w : World) (this : ProxyServer) (cmd message : jsstring)
         (req : Req.t),
    reachable this ->
    isRunning this = true ->
    not_string (destination (getConfiguration w)) = false ->
    tokenCommand (getConfiguration w) = Some cmd ->
    JsString.is_empty (trim cmd) = false ->
    execSync w cmd = ExecThrows message ->
    let this1 := fst (fst (stop this)) in
    let this2 := fst (fst (start w this1)) in
    token this1 = token this
    /\ shouldUseAuthentication this1 = false
    /\ isRunning this2 = true
    /\ token this2 = token this
    /\ shouldUseAuthentication this2 = true
    /\ (token this <> [] ->
        match serve w this2 req with
        | Some (ProxyRequest _ options _) =>
            JsObject.get AuthorizationName (Options.headers options)
            = Some (bearer (token this))
        | Some InternalServerError => True
        | None => False
        end).
Proof.
  intros w this cmd message req Hreach Hrun Hd Hc Hb He this1 this2.
  pose proof (reachable_no_space Hreach) as Hclean.
  assert (H1 : token this1 = token this /\ shouldUseAuthentication this1 = false
               /\ server this1 = None).
  { unfold this1, stop, isRunning in *.
    destruct (server this); [|discriminate].
    destruct (tokenRotationInterval this); simpl; auto. }
  destruct H1 as (Ht1 & Ha1 & Hs1).
  assert (H2 : token this2 = token this
               /\ shouldUseAuthentication this2 = true
               /\ exists srv, server this2 = Some srv).
  { unfold this2, start. rewrite Hs1, Hd, Hc.
    assert (Hor : or_string (Some cmd) [] = cmd).
    { destruct cmd; [discriminate Hb | reflexivity]. }
    rewrite Hor, Hb.
    cbn [shouldUseAuthentication with_shouldUseAuthentication negb].
    rewrite (rotateToken_exec_throws w
               (with_shouldUseAuthentication true this1) eq_refl Hc Hb He).
    destruct (listen w _); simpl; rewrite Ht1; eauto. }
  destruct H2 as (Ht2 & Ha2 & srv & Hs2).
  split; [exact Ht1|]. split; [exact Ha1|].
  split; [unfold isRunning; now rewrite Hs2|].
  split; [exact Ht2|]. split; [exact Ha2|].
  intros Hne. unfold serve. rewrite Hs2.
  unfold requestHandler.
  destruct (newURL w (captured_destination srv)); [|exact I].
  cbn [Options.headers].
  rewrite Ha2, Ht2, (trim_clean _ Hclean).
  destruct (token this) as [|c0 tl0] eqn:E; [congruence|].
  cbn [JsString.truthy JsString.is_empty negb andb].
  rewrite <- E in *. rewrite (remove_spaces_clean _ Hclean).
  fold (delete_hop_headers
          (JsObject.set AuthorizationName (bearer (token this))
             (Req.headers req))).
  rewrite get_hop by discriminate. apply get_set_same.
Qed.

Lemma restart_keeps_previous_token_witness :
  let this := step (CallStart (sample_world config_a)) new_ProxyServer in
  let this2 :=
    fst (fst (start (sample_world config_failing) (fst (fst (stop this))))) in
  token this2 = js "T1"
  /\ match serve (sample_world config_failing) this2
             (get_request (js "/") []) with
     | Some (ProxyRequest _ options _) =>
         JsObject.get AuthorizationName (Options.headers options)
         = Some (bearer (js "T1"))
     | _ => False
     end.
Proof.
  pose proof (restart_keeps_previous_token
                (sample_world config_failing)
                (cmd := js "exit 1") (message := js "Command failed")
                (get_request (js "/") [])
                (reachable_step (CallStart (sample_world config_a))
                   reachable_new)
                eq_refl eq_refl eq_refl eq_refl eq_refl) as H.
  cbv zeta in H. destruct H as (_ & _ & _ & H4 & _ & H6).
  split; [exact H4|].
  specialize (H6 ltac:(discriminate)).
  vm_compute in H6. vm_compute. exact H6.
Defined.

(* ================================================================== *)
(** ** Starting, rotating, and what the token can be *)
(* ================================================================== *)

Lemma executed_commands_app (a b : list Effect) :
  executed_commands (a ++ b) = executed_commands a ++ executed_commands b.
Proof. unfold executed_commands. apply flat_map_app. Qed.

(** X7.  On a stopped object with a destination configured, the token
    command has no say in whether [start()] succeeds: the promise resolves
    to [true], is rejected or stays pending according to what [listen] does
    with the port, and the [server] field is assigned in each case.  The
    command is run exactly once when it is non-blank, whether it succeeds
    or not, and not at all when it is blank. *)
Theorem start_outcome_decided_by_listen :
  forall (w : World) (this : ProxyServer),
    isRunning this = false ->
    not_string (destination (getConfiguration w)) = false ->
    let config := getConfiguration w in
    let command := or_string (tokenCommand config) [] in
    snd (start w this)
    = match listen w (or_number (proxyPort config) 123456) with
      | ListenCallback => Resolved true
      | ListenThrows => Rejected
      | ListenErrorEvent => Pending
      end
    /\ option_map captured_destination (server (fst (fst (start w this))))
       = Some (or_string (destination config) [])
    /\ executed_commands (snd (fst (start w this)))
       = (if JsString.is_empty (trim command) then [] else [command]).
Proof.
  intros w this Hrun Hd. cbv zeta.
  unfold isRunning in Hrun. unfold start.
  destruct (server this); [discriminate|].
  rewrite Hd.
  set (config := getConfiguration w).
  set (command := or_string (tokenCommand config) []).
  cbn [shouldUseAuthentication with_shouldUseAuthentication].
  destruct (JsString.is_empty (trim command)) eqn:Hb; cbn [negb].
  - destruct (listen w _); simpl; repeat split.
  - set (this1 := with_shouldUseAuthentication true this).
    assert (Hc : tokenCommand config = Some command).
    { unfold command in *. destruct (tokenCommand config) as [c|].
      - simpl in *. destruct c; [discriminate Hb | reflexivity].
      - discriminate Hb. }
    pose proof (@rotateToken_runs_live_command w this1 command eq_refl Hc Hb)
      as Hex.
    destruct (rotateToken w this1) as [this2 eff]. simpl in Hex.
    destruct (listen w _); cbn [fst snd];
      (split; [reflexivity|]);
      (split; [try destruct (shouldUseAuthentication _); reflexivity|]);
      rewrite ?executed_commands_app, Hex; reflexivity.
Qed.

Lemma start_outcome_decided_by_listen_witness :
  snd (start (sample_world config_failing) new_ProxyServer) = Resolved true
  /\ executed_commands
       (snd (fst (start (sample_world config_failing) new_ProxyServer)))
     = [js "exit 1"].
Proof.
  destruct (start_outcome_decided_by_listen
              (sample_world config_failing) new_ProxyServer eq_refl eq_refl)
    as (H1 & _ & H3).
  split; [exact H1 | exact H3].
Defined.

(** X8.  A token command that succeeds but prints nothing but white space
    wipes the stored token: the rotation stores the empty string, leaves
    authentication on, and requests then go out without the handler's
    [Authorization] header, with only the three hop headers removed. *)
Theorem blank_output_clears_token :
  forall (w w' : World) (this : ProxyServer) (cmd stdout dest : jsstring)
         (req : Req.t),
    shouldUseAuthentication this = true ->
    tokenCommand (getConfiguration w) = Some cmd ->
    JsString.is_empty (trim cmd) = false ->
    execSync w cmd = ExecOutput stdout ->
    remove_spaces stdout = [] ->
    let this1 := fst (rotateToken w this) in
    token this1 = []
    /\ shouldUseAuthentication this1 = true
    /\ match requestHandler w' dest this1 req with
       | ProxyRequest _ options _ =>
           Options.headers options = delete_hop_headers (Req.headers req)
       | InternalServerError => True
       end.
Proof.
  intros w w' this cmd stdout dest req Ha Hc Hb He Hblank this1.
  assert (H1 : this1 = with_token [] this).
  { unfold this1.
    rewrite (rotateToken_exec_output w this Ha Hc Hb He). simpl.
    now rewrite Hblank. }
  rewrite H1. simpl. split; [reflexivity|]. split; [exact Ha|].
  unfold requestHandler. destruct (newURL w' dest); [|exact I].
  simpl. rewrite Ha. reflexivity.
Qed.

Lemma blank_output_clears_token_witness :
  let this :=
    with_token (js "T1") (with_shouldUseAuthentication true new_ProxyServer) in
  token (fst (rotateToken blank_output_world this)) = [].
Proof.
  exact (proj1 (blank_output_clears_token
                  blank_output_world blank_output_world
                  (with_token (js "T1")
                     (with_shouldUseAuthentication true new_ProxyServer))
                  (cmd := js "print-token-a") (stdout := [0x0A%N])
                  (js "http://localhost:3000") (get_request (js "/") [])
                  eq_refl eq_refl eq_refl eq_refl eq_refl)).
Defined.

(** X9.  In every state the object can reach, the stored token holds no
    white-space or line-terminator code unit; the trimming and replacing
    the handler applies to it again change nothing, and the handler
    attaches the token exactly when authentication is on and the token is
    non-empty. *)
Theorem stored_token_is_clean :
  forall this : ProxyServer,
    reachable this ->
    no_space (token this) = true
    /\ trim (token this) = token this
    /\ remove_spaces (trim (token this)) = token this
    /\ attaches_token this
       = shouldUseAuthentication this && JsString.truthy (token this).
Proof.
  intros this Hr. pose proof (reachable_no_space Hr) as Hc.
  split; [exact Hc|]. split; [now apply trim_clean|].
  split; [now apply sanitize_clean | now apply attaches_token_clean].
Qed.

Lemma stored_token_is_clean_witness :
  let this := step (CallStart (sample_world config_abc123)) new_ProxyServer in
  no_space (token this) = true /\ attaches_token this = true.
Proof.
  destruct (stored_token_is_clean
              (reachable_step (CallStart (sample_world config_abc123))
                 reachable_new))
    as (H1 & _ & _ & H4).
  split; [exact H1 | exact H4].
Defined.

(** X10.  Once authentication is off on a running server (it was started
    without a token command, or a rotation found the command empty),
    nothing that happens before the next [stop()] changes the object or
    runs a command: a token command entered in the settings later is not
    picked up until the server is restarted. *)
Theorem authentication_stays_off :
  forall (this : ProxyServer) (es : list Event),
    isRunning this = true ->
    shouldUseAuthentication this = false ->
    forallb during_run es = true ->
    steps es this = this
    /\ executed_commands (trace es this) = [].
Proof.
  intros this es Hr Ha. induction es as [|e es IH]; simpl; intros Hes.
  - auto.
  - apply andb_prop in Hes. destruct Hes as [He Hes].
    assert (Hstep : step e this = this
                    /\ executed_commands (step_effects e this) = []).
    { destruct e as [w| |w]; simpl in *; [| discriminate |].
      - rewrite (start_while_running w this Hr). auto.
      - unfold timer_tick. destruct (tokenRotationInterval this); [|auto].
        rewrite (rotateToken_disabled w this Ha). auto. }
    destruct Hstep as [Hs Hx]. unfold steps in *. simpl.
    rewrite Hs, executed_commands_app, Hx. simpl. now apply IH.
Qed.

Lemma authentication_stays_off_witness :
  let this :=
    step (TimerFires (sample_world config_blank_command))
      (step (CallStart (sample_world config_a)) new_ProxyServer) in
  let es := [TimerFires (sample_world config_a);
             CallStart (sample_world config_a);
             TimerFires (sample_world config_b)] in
  steps es this = this /\ executed_commands (trace es this) = [].
Proof.
  apply (authentication_stays_off
           (step (TimerFires (sample_world config_blank_command))
              (step (CallStart (sample_world config_a)) new_ProxyServer))
           [TimerFires (sample_world config_a);
            CallStart (sample_world config_a);
            TimerFires (sample_world config_b)]);
    reflexivity.
Defined.

(* ================================================================== *)
(** ** The two copies of the class compared *)
(* ================================================================== *)












(* ================================================================== *)
(** ** The control panel and the extension's entry points *)
(* ================================================================== *)


Lemma stop_result (this : ProxyServer) :
  let this' := fst (fst (stop this)) in
  isRunning this' = false
  /\ token this' = token this
  /\ (isRunning this = true ->
      tokenRotationInterval this' = None
      /\ shouldUseAuthentication this' = false).
Proof.
  unfold stop, isRunning.
  destruct (server this) eqn:Hs; simpl.
  - destruct (tokenRotationInterval this) eqn:E; simpl; repeat split;
      exact E.
  - rewrite Hs. repeat split; discriminate.
Qed.


Lemma reachable_onDidReceiveMessage (w : World) (m : Panel.WebviewMessage)
    (this : ProxyServer) :
  reachable this ->
  reachable (fst (fst (Panel.onDidReceiveMessage w m this))).
Proof.
  intros Hr. destruct m as [| |d c p mn|]; simpl.
  - destruct (start w this) as [[this' eff] res] eqn:E. simpl.
    replace this' with (step (CallStart w) this) by (simpl; now rewrite E).
    now constructor.
  - destruct (stop this) as [[this' eff] res] eqn:E. simpl.
    replace this' with (step CallStop this) by (simpl; now rewrite E).
    now constructor.
  - destruct (isRunning this); [|exact Hr].
    destruct (stop this) as [[this1 eff1] ok1] eqn:E1.
    destruct (start w this1) as [[this2 eff2] res2] eqn:E2. simpl.
    replace this2 with (step (CallStart w) (step CallStop this))
      by (simpl; rewrite E1; simpl; now rewrite E2).
    now repeat constructor.
  - exact Hr.
Qed.

(** What holds of the extension between [activate] and [deactivate]. *)
Lemma happen_single (e : Extension.Happening) (x : Extension.t) :
  (exists s, Extension.heap x = [s] /\ reachable s)
  /\ Extension.proxyServer x = Some 0
  /\ (Extension.currentPanel x = None \/ Extension.currentPanel x = Some 0) ->
  (exists s, Extension.heap (Extension.happen e x) = [s] /\ reachable s)
  /\ Extension.proxyServer (Extension.happen e x) = Some 0
  /\ (Extension.currentPanel (Extension.happen e x) = None
      \/ Extension.currentPanel (Extension.happen e x) = Some 0).
Proof.
  intros ((s & Hh & Hr) & Hp & Hc).
  destruct e as [w| | |w m| |w r]; simpl.
  - unfold Extension.ensure. rewrite Hp. simpl. rewrite Hh. simpl.
    split; [|auto]. eexists. split; [reflexivity|].
    apply (reachable_step (CallStart w) Hr).
  - rewrite Hp. simpl. rewrite Hh. simpl.
    split; [|auto]. eexists. split; [reflexivity|].
    apply (reachable_step CallStop Hr).
  - unfold Extension.ensure. rewrite Hp.
    destruct (Extension.currentPanel x) eqn:E; simpl; rewrite ?E;
      (split; [exists s; auto | auto]).
  - destruct Hc as [Hc | Hc]; rewrite Hc;
      [split; [exists s; auto | auto]|].
    simpl. rewrite Hh. simpl. split; [|auto].
    eexists. split; [reflexivity|].
    now apply reachable_onDidReceiveMessage.
  - split; [exists s; auto | auto].
  - rewrite Hh. split; [|auto].
    destruct r as [|r]; simpl.
    + eexists. split; [reflexivity|].
      apply (reachable_step (TimerFires w) Hr).
    + exists s. split; [now destruct r | exact Hr].
Qed.

(** X15.  While the extension is active it works with one [ProxyServer]
    object: whatever commands, panel messages and timer events occur after
    [activate], no second object is created, and the command palette and
    the panel (when open) hold the same one.  After [deactivate] the
    module's variable is cleared and that object is not running and has no
    rotation timer, so no further rotation takes place. *)
Theorem extension_single_server :
  forall es : list Extension.Happening,
    let x := Extension.happenings es Extension.activate in
    let y := Extension.deactivate x in
    List.length (Extension.heap x) = 1
    /\ Extension.proxyServer x = Some 0
    /\ (Extension.currentPanel x = None \/ Extension.currentPanel x = Some 0)
    /\ Extension.proxyServer y = None
    /\ List.length (Extension.heap y) = 1
    /\ Forall (fun s => isRunning s = false
                        /\ tokenRotationInterval s = None
                        /\ forall w, timer_tick w s = (s, []))
         (Extension.heap y).
Proof.
  intros es x y.
  assert (Hinv : (exists s, Extension.heap x = [s] /\ reachable s)
                 /\ Extension.proxyServer x = Some 0
                 /\ (Extension.currentPanel x = None
                     \/ Extension.currentPanel x = Some 0)).
  { unfold x, Extension.happenings.
    assert (G : forall es x0,
              (exists s, Extension.heap x0 = [s] /\ reachable s)
              /\ Extension.proxyServer x0 = Some 0
              /\ (Extension.currentPanel x0 = None
                  \/ Extension.currentPanel x0 = Some 0) ->
              let x1 := fold_left (fun x e => Extension.happen e x) es x0 in
              (exists s, Extension.heap x1 = [s] /\ reachable s)
              /\ Extension.proxyServer x1 = Some 0
              /\ (Extension.currentPanel x1 = None
                  \/ Extension.currentPanel x1 = Some 0)).
    { clear. induction es as [|e es IH]; simpl; intros x0 H; [exact H|].
      apply IH. now apply happen_single. }
    apply G. simpl. split; [|auto].
    exists new_ProxyServer. split; [reflexivity | constructor]. }
  destruct Hinv as ((s & Hh & Hr) & Hp & Hc).
  split; [now rewrite Hh|]. split; [exact Hp|]. split; [exact Hc|].
  unfold y, Extension.deactivate. rewrite Hp. simpl. rewrite Hh. simpl.
  split; [reflexivity|]. split; [reflexivity|].
  constructor; [|constructor].
  pose proof (reachable_step CallStop Hr) as Hr'. simpl in Hr'.
  destruct (stop_result s) as (Hs1 & _ & _).
  destruct (reachable_timer_invariant Hr') as [_ Ht].
  assert (Hnone : tokenRotationInterval (fst (fst (stop s))) = None).
  { destruct (tokenRotationInterval (fst (fst (stop s)))) eqn:E;
      [|reflexivity].
    destruct Ht as (srv & port & Hsrv & _); [discriminate|].
    unfold isRunning in Hs1. rewrite Hsrv in Hs1. discriminate. }
  split; [exact Hs1|]. split; [exact Hnone|].
  intros w. unfold timer_tick. now rewrite Hnone.
Qed.

(** X16.  While the server runs, the panel shows it as running, with the
    start button disabled and the stop button enabled, and names as its
    port the port of the settings as they are now (8080 when unset), not
    the listener's.  The two are the same when the settings name a non-zero
    port and have not changed since the start. *)
Theorem panel_shows_settings_port :
  forall (w0 w : World) (this0 this1 : ProxyServer) (eff : list Effect),
    start w0 this0 = (this1, eff, Resolved true) ->
    let v := Panel.getHtmlForWebview w this1 in
    Panel.statusText v = js "Running"
    /\ Panel.startButtonDisabled v = true
    /\ Panel.stopButtonDisabled v = false
    /\ Panel.portInfo v
       = Some (or_number (proxyPort (getConfiguration w)) 8080)
    /\ (forall p : Z,
          proxyPort (getConfiguration w0) = Some p -> p <> 0%Z ->
          proxyPort (getConfiguration w) = Some p ->
          option_map listening (server this1) = Some (Panel.portInfo v)).
Proof.
  intros w0 w this0 this1 eff Hstart v.
  destruct (start_resolved_true _ _ Hstart) as (_ & _ & _ & Hsrv & _).
  unfold v, Panel.getHtmlForWebview, isRunning. rewrite Hsrv. simpl.
  repeat split.
  intros p Hp0 Hne Hp. rewrite Hp0, Hp. simpl.
  apply Z.eqb_neq in Hne. now rewrite Hne.
Qed.

Lemma panel_shows_settings_port_witness :
  let this1 := fst (fst (start (sample_world config_a) new_ProxyServer)) in
  Panel.portInfo (Panel.getHtmlForWebview (sample_world config_b) this1)
  = Some 8080%Z
  /\ option_map listening (server this1) = Some (Some 8080%Z).
Proof.
  destruct (panel_shows_settings_port
              (sample_world config_a) (sample_world config_b)
              new_ProxyServer eq_refl)
    as (_ & _ & _ & H4 & H5).
  split; [exact H4|].
  exact (H5 8080%Z eq_refl ltac:(discriminate) eq_refl).
Defined.
